(** * The inner editor of the theme pack helper

    A shallow embedding of
    [packages/theme-pack-helper/src/renderer-preset/inner-editor.ts]:
    the closure built by [createInnerEditor] ([openEditor], [closeEditor] and
    the [dispatchTransaction] handler of the inner view) and the renderer
    callbacks [onUpdate], [onFocus], [onBlur] and [onDestroy].

    The file has three layers.
    - The part of the editor toolkit the source calls, imported from
      ['@milkdown/prose'], which re-exports the ProseMirror packages: text
      content with the fragment diff, position maps, steps, transactions and
      editor states. They follow the documented behaviour of that library.
      The hosted node holds plain text ([text*]), so a fragment is a run of
      characters.
    - [Host]: what the source receives from outside (the outer document, the
      position accessor [getPos], the style class names), kept abstract.
    - The source functions, written over an explicit [World] with a small
      state-and-exception monad: a JavaScript [throw] leaves the mutations
      done so far in place.

    Left out: the [Enter] and [Mod-Enter] bindings of the inner view, which
    need the schema of the outer document, and the style sheet of
    [getStyle]. *)

From Stdlib Require Import ZArith List Ascii String Bool Lia.
Import ListNotations.

Open Scope Z_scope.

(** ** Text *)

(** A JavaScript string, as its sequence of code units. *)
Definition text := list ascii.

Definition txt (s : string) : text := list_ascii_of_string s.

Definition text_dec : forall a b : text, {a = b} + {a <> b} :=
  list_eq_dec ascii_dec.

Definition text_eqb (a b : text) : bool :=
  if text_dec a b then true else false.

Definition size (t : text) : Z := Z.of_nat (List.length t).

(** [s.slice(from, to)] for [0 <= from <= to]. *)
Definition cut (from to : Z) (t : text) : text :=
  firstn (Z.to_nat (to - from)) (skipn (Z.to_nat from) t).

(** ** Fragments of text content *)

Module Fragment.

(** The content of a node that holds text only: no child when the text is
    empty, one text child otherwise. *)
Definition t := text.

(** [fragment.firstChild]: [null] on the empty fragment. *)
Definition firstChild (f : t) : option text :=
  match f with
  | [] => None
  | _ => Some f
  end.

(** The inner loop of [findDiffStart] on two text children whose texts
    differ: [for (j = 0; a.text[j] == b.text[j]; j++) pos++]. *)
Fixpoint diffStartText (a b : text) (pos : Z) : Z :=
  match a, b with
  | x :: a', y :: b' =>
      if ascii_dec x y then diffStartText a' b' (pos + 1) else pos
  | _, _ => pos
  end.

(** [a.findDiffStart(b)]: the first position where the two fragments
    differ, [None] ([null]) when they are the same. *)
Definition findDiffStart (a b : t) : option Z :=
  match a, b with
  | [], [] => None
  | [], _ :: _ => Some 0
  | _ :: _, [] => Some 0
  | _ :: _, _ :: _ =>
      if text_eqb a b then None else Some (diffStartText a b 0)
  end.

(** The inner loop of [findDiffEnd]: the number of trailing characters the
    two texts share, at most the shorter length. *)
Definition sameSuffix (a b : text) : Z := diffStartText (rev a) (rev b) 0.

(** [a.findDiffEnd(b)]: scanning from the end, the positions [(a, b)] in
    each fragment where the two start to differ. *)
Definition findDiffEnd (a b : t) : option (Z * Z) :=
  match a, b with
  | [], [] => None
  | [], _ :: _ => Some (size a, size b)
  | _ :: _, [] => Some (size a, size b)
  | _ :: _, _ :: _ =>
      if text_eqb a b then None
      else let same := sameSuffix a b in
           Some (size a - same, size b - same)
  end.

End Fragment.

(** ** Nodes *)

(** The hosted node: its [value] attribute and its text content. *)
Record Node := mkNode {
  attrs_value : text;
  content : Fragment.t
}.

Definition Node_dec : forall a b : Node, {a = b} + {a <> b}.
Proof. decide equality; apply text_dec. Defined.

Inductive Error :=
| StepDiscarded      (* Error('step discarded!') *)
| TransformError     (* a step that the document does not take *)
| RangeError.        (* a position outside the document, a mismatched transaction *)

(** [node.slice(from, to)]: the content between two positions; a position
    outside the content raises. *)
Definition slice (from to : Z) (n : Node) : Error + text :=
  if from =? to then inr []
  else if (0 <=? from) && (from <=? size (content n))
          && (0 <=? to) && (to <=? size (content n))
       then inr (cut from to (content n))
       else inl RangeError.

(** [node.replace(from, to, slice)] on text content. *)
Definition replaceContent (from to : Z) (s : text) (n : Node) : option Node :=
  if (0 <=? from) && (from <=? to) && (to <=? size (content n))
  then Some (mkNode (attrs_value n)
               (firstn (Z.to_nat from) (content n) ++ s
                  ++ skipn (Z.to_nat to) (content n)))
  else None.

(** ** Position maps *)

Module StepMap.

(** A position map is a list of ranges [(start, oldSize, newSize)]. *)
Definition t := list (Z * Z * Z).

(** [StepMap.offset(n)]: shifts every position by [n]. *)
Definition offset (n : Z) : t :=
  if n =? 0 then []
  else if n <? 0 then [(0, - n, 0)] else [(0, 0, n)].

(** [mapResult(pos, assoc)]: the mapped position and whether the position
    was deleted. *)
Fixpoint mapFrom (ranges : t) (diff pos assoc : Z) : Z * bool :=
  match ranges with
  | [] => (pos + diff, false)
  | (start, oldSize, newSize) :: rest =>
      if pos <? start then (pos + diff, false)
      else
        let end_ := start + oldSize in
        if pos <=? end_ then
          let side :=
            if oldSize =? 0 then assoc
            else if pos =? start then -1
            else if pos =? end_ then 1 else assoc in
          (start + diff + (if side <? 0 then 0 else newSize),
           if assoc <? 0 then negb (pos =? start) else negb (pos =? end_))
        else mapFrom rest (diff + newSize - oldSize) pos assoc
  end.

Definition mapResult (m : t) (pos assoc : Z) : Z * bool :=
  mapFrom m 0 pos assoc.

Definition map (m : t) (pos assoc : Z) : Z := fst (mapResult m pos assoc).

End StepMap.

(** ** Steps *)

(** A replace step carries the range it replaces and the text it puts
    there. Every other kind of step of the toolkit is a [OtherStep]; what it
    holds is up to the host. *)
Inductive Step (X : Type) :=
| ReplaceStep (from to : Z) (slice : text)
| OtherStep (x : X).

Arguments ReplaceStep {X} from to slice.
Arguments OtherStep {X} x.

(** ** Selections *)

Record Selection := mkSelection { anchor : Z; head : Z }.

Definition sel_from (s : Selection) : Z := Z.min (anchor s) (head s).
Definition sel_to (s : Selection) : Z := Z.max (anchor s) (head s).

(** [TextSelection.create(doc, pos)]. *)
Definition TextSelection_create (pos : Z) : Selection := mkSelection pos pos.

(** [selection.map(doc, mapping)]. *)
Definition Selection_map (m : StepMap.t) (s : Selection) : Selection :=
  mkSelection (StepMap.map m (anchor s) 1) (StepMap.map m (head s) 1).

(** ** What the host provides *)

Class Host := {
  (** the steps of the toolkit other than [ReplaceStep], and [step.map] on
      them ([None] is [null]) *)
  Other : Type;
  mapOther : StepMap.t -> Other -> option Other;
  (** the state of the outer view, and [step.apply] on its document
      ([None] is a failed step result) *)
  OuterState : Type;
  applyOuter : Step Other -> OuterState -> option OuterState;
  (** the position of the hosted node in the outer document *)
  getPos : OuterState -> Z;
  (** the class names made by [getStyle]; the empty string is falsy *)
  codeStyle : string;
  hideCodeStyle : string
}.

Definition truthy (s : string) : bool :=
  match s with
  | EmptyString => false
  | _ => true
  end.

Section InnerEditor.

Context {host : Host}.

Local Abbreviation step := (Step Other).

(** [step.map(mapping)]. *)
Definition Step_map (m : StepMap.t) (s : step) : option step :=
  match s with
  | ReplaceStep from to sl =>
      let (fromPos, fromDel) := StepMap.mapResult m from 1 in
      let (toPos, toDel) := StepMap.mapResult m to (-1) in
      if fromDel && toDel then None
      else Some (ReplaceStep fromPos (Z.max fromPos toPos) sl)
  | OtherStep x =>
      match mapOther m x with
      | Some x' => Some (OtherStep x')
      | None => None
      end
  end.

(** [replaceStep.getMap()]. *)
Definition ReplaceStep_getMap (from to : Z) (sl : text) : StepMap.t :=
  [(from, to - from, size sl)].

(** ** Transactions on the inner document *)

Record Transaction := mkTransaction {
  tr_before : Node;                 (* the document the transaction starts from *)
  tr_doc : Node;                    (* the document after its steps *)
  tr_steps : list step;
  tr_selection : Selection;
  tr_meta : list (string * bool)    (* metadata, each value by its truthiness *)
}.

(** [tr.getMeta(key)]: [None] is [undefined]. *)
Fixpoint lookupMeta (key : string) (meta : list (string * bool)) : option bool :=
  match meta with
  | [] => None
  | (k, v) :: rest => if string_dec k key then Some v else lookupMeta key rest
  end.

Definition getMeta (key : string) (tr : Transaction) : option bool :=
  lookupMeta key (tr_meta tr).

(** Truthiness of a metadata value. *)
Definition isSet (v : option bool) : bool :=
  match v with
  | Some true => true
  | _ => false
  end.

(** [tr.setMeta(key, value)]. *)
Definition setMeta (key : string) (v : bool) (tr : Transaction) : Transaction :=
  mkTransaction (tr_before tr) (tr_doc tr) (tr_steps tr) (tr_selection tr)
    ((key, v) :: tr_meta tr).

(** [tr.setSelection(selection)]. *)
Definition setSelection (s : Selection) (tr : Transaction) : Transaction :=
  mkTransaction (tr_before tr) (tr_doc tr) (tr_steps tr) s (tr_meta tr).

(** [tr.step(new ReplaceStep(from, to, slice))]: a step that does not apply
    raises. *)
Definition stepReplace (from to : Z) (sl : text) (tr : Transaction)
  : Error + Transaction :=
  match replaceContent from to sl (tr_doc tr) with
  | None => inl TransformError
  | Some doc' =>
      inr (mkTransaction (tr_before tr) doc'
             (tr_steps tr ++ [ReplaceStep from to sl])
             (Selection_map (ReplaceStep_getMap from to sl) (tr_selection tr))
             (tr_meta tr))
  end.

Definition inRange (pos : Z) (n : Node) : bool :=
  (0 <=? pos) && (pos <=? size (content n)).

(** [tr.replace(from, to, slice)]: nothing to do when the range and the slice
    are both empty; both positions are resolved in the document. *)
Definition replace (from to : Z) (sl : text) (tr : Transaction)
  : Error + Transaction :=
  if (from =? to) && (size sl =? 0) then inr tr
  else if inRange from (tr_doc tr) && inRange to (tr_doc tr)
       then stepReplace from to sl tr
       else inl RangeError.

(** [tr.insertText(text)]: replaces the selection and puts the cursor after
    the inserted text. *)
Definition insertText (s : text) (tr : Transaction) : Error + Transaction :=
  let from := sel_from (tr_selection tr) in
  match replace from (sel_to (tr_selection tr)) s tr with
  | inl e => inl e
  | inr tr' => inr (setSelection (TextSelection_create (from + size s)) tr')
  end.

(** ** Editor states *)

Record EditorState := mkState {
  doc : Node;
  selection : Selection
}.

(** [EditorState.create({doc, plugins})]: the selection starts at the start
    of the document. *)
Definition EditorState_create (d : Node) : EditorState :=
  mkState d (TextSelection_create 0).

(** [state.tr]. *)
Definition newTr (s : EditorState) : Transaction :=
  mkTransaction (doc s) (doc s) [] (selection s) [].

(** [state.applyTransaction(tr)]: the new state and the transactions that
    were applied; the key map is the only plugin and appends none. A
    transaction that does not start from the state's document is refused
    ([None], a [RangeError]). *)
Definition applyTransaction (s : EditorState) (tr : Transaction)
  : option (EditorState * list Transaction) :=
  if Node_dec (tr_before tr) (doc s)
  then Some (mkState (tr_doc tr) (tr_selection tr), [tr])
  else None.

(** ** Transactions on the outer document *)

Record OuterTr := mkOuterTr {
  otr_state : OuterState;      (* the outer state after the steps so far *)
  otr_steps : list step
}.

(** [outerView.state.tr]. *)
Definition newOuterTr (o : OuterState) : OuterTr := mkOuterTr o [].

(** [outerTr.step(step)]: the step is added when it applies to the outer
    document and the call throws when it does not. [applyOuter] says only
    whether the step applies, so the two errors of the toolkit (the transform
    error of a refused step, the range error of a position that does not
    resolve) are one failure here, reported as [TransformError]; no property
    below depends on which of the two it is. *)
Definition outerStep (s : step) (otr : OuterTr) : Error + OuterTr :=
  match applyOuter s (otr_state otr) with
  | None => inl TransformError
  | Some o' => inr (mkOuterTr o' (otr_steps otr ++ [s]))
  end.

(** [tr.docChanged]: the transaction's report that the document has been
    changed; the toolkit gives it as true when the transaction holds a
    step. *)
Definition docChanged (otr : OuterTr) : bool :=
  match otr_steps otr with
  | [] => false
  | _ :: _ => true
  end.

(** ** The world the callbacks run in *)

(** An inner [EditorView]: the identity it got when it was constructed and
    its current state. *)
Record InnerView := mkView {
  view_id : nat;
  state : EditorState
}.

(** What an observer sees happen, in order. *)
Inductive Event :=
| EvInner (tr : Transaction)     (* innerView.dispatch(tr) *)
| EvOuter (otr : OuterTr)        (* outerView.dispatch(outerTr) *)
| EvRender (value : text).       (* render(value) *)

Record World := mkWorld {
  (* the variables captured by createInnerEditor *)
  isEditing : bool;
  innerView : option InnerView;
  (* the outer view *)
  outer : OuterState;
  editable : bool;
  (* the inner views: how many were constructed, which are mounted in the
     editor element (constructed and not destroyed), which holds the focus *)
  created : nat;
  mounted : list nat;
  focused : option nat;
  (* the elements dom, editor and preview *)
  editorClasses : list string;
  domClasses : list string;
  datasetValue : option text;
  previewAttached : bool;
  editorAttached : bool;
  domAttached : bool;
  (* the events so far, oldest first *)
  trace : list Event
}.

Definition set_isEditing (b : bool) (w : World) : World :=
  mkWorld b (innerView w) (outer w) (editable w) (created w) (mounted w)
    (focused w) (editorClasses w) (domClasses w) (datasetValue w)
    (previewAttached w) (editorAttached w) (domAttached w) (trace w).

Definition set_innerView (v : option InnerView) (w : World) : World :=
  mkWorld (isEditing w) v (outer w) (editable w) (created w) (mounted w)
    (focused w) (editorClasses w) (domClasses w) (datasetValue w)
    (previewAttached w) (editorAttached w) (domAttached w) (trace w).

Definition set_outer (o : OuterState) (w : World) : World :=
  mkWorld (isEditing w) (innerView w) o (editable w) (created w) (mounted w)
    (focused w) (editorClasses w) (domClasses w) (datasetValue w)
    (previewAttached w) (editorAttached w) (domAttached w) (trace w).

Definition set_created (n : nat) (w : World) : World :=
  mkWorld (isEditing w) (innerView w) (outer w) (editable w) n (mounted w)
    (focused w) (editorClasses w) (domClasses w) (datasetValue w)
    (previewAttached w) (editorAttached w) (domAttached w) (trace w).

Definition set_mounted (l : list nat) (w : World) : World :=
  mkWorld (isEditing w) (innerView w) (outer w) (editable w) (created w) l
    (focused w) (editorClasses w) (domClasses w) (datasetValue w)
    (previewAttached w) (editorAttached w) (domAttached w) (trace w).

Definition set_focused (f : option nat) (w : World) : World :=
  mkWorld (isEditing w) (innerView w) (outer w) (editable w) (created w)
    (mounted w) f (editorClasses w) (domClasses w) (datasetValue w)
    (previewAttached w) (editorAttached w) (domAttached w) (trace w).

Definition set_editorClasses (l : list string) (w : World) : World :=
  mkWorld (isEditing w) (innerView w) (outer w) (editable w) (created w)
    (mounted w) (focused w) l (domClasses w) (datasetValue w)
    (previewAttached w) (editorAttached w) (domAttached w) (trace w).

Definition set_domClasses (l : list string) (w : World) : World :=
  mkWorld (isEditing w) (innerView w) (outer w) (editable w) (created w)
    (mounted w) (focused w) (editorClasses w) l (datasetValue w)
    (previewAttached w) (editorAttached w) (domAttached w) (trace w).

Definition set_datasetValue (v : option text) (w : World) : World :=
  mkWorld (isEditing w) (innerView w) (outer w) (editable w) (created w)
    (mounted w) (focused w) (editorClasses w) (domClasses w) v
    (previewAttached w) (editorAttached w) (domAttached w) (trace w).

Definition set_attached (p e d : bool) (w : World) : World :=
  mkWorld (isEditing w) (innerView w) (outer w) (editable w) (created w)
    (mounted w) (focused w) (editorClasses w) (domClasses w) (datasetValue w)
    p e d (trace w).

Definition emit (e : Event) (w : World) : World :=
  mkWorld (isEditing w) (innerView w) (outer w) (editable w) (created w)
    (mounted w) (focused w) (editorClasses w) (domClasses w) (datasetValue w)
    (previewAttached w) (editorAttached w) (domAttached w) (trace w ++ [e]).

(** [classList.add(c)] and [classList.remove(c)]. *)
Definition classAdd (c : string) (l : list string) : list string :=
  if in_dec string_dec c l then l else l ++ [c].

Definition classRemove (c : string) (l : list string) : list string :=
  filter (fun d => if string_dec d c then false else true) l.

(** ** Computations that change the world and may throw *)

Definition M (A : Type) : Type := World -> (Error + A) * World.

Definition ret {A} (a : A) : M A := fun w => (inr a, w).

Definition throw {A} (e : Error) : M A := fun w => (inl e, w).

Definition bind {A B} (m : M A) (k : A -> M B) : M B :=
  fun w =>
    match m w with
    | (inr a, w') => k a w'
    | (inl e, w') => (inl e, w')
    end.

Definition get : M World := fun w => (inr w, w).

Definition modify (f : World -> World) : M unit := fun w => (inr tt, f w).

Definition lift {A} (r : Error + A) : M A := fun w => (r, w).

Notation "x <- m ;; k" := (bind m (fun x => k))
  (at level 61, m at next level, right associativity).
Notation "m ;; k" := (bind m (fun _ => k))
  (at level 61, right associativity).

(** The world a computation leaves, and whether it returned. *)
Definition after {A} (m : M A) (w : World) : World := snd (m w).

Definition returns {A} (m : M A) (w : World) : Prop :=
  exists a, fst (m w) = inr a.

Definition throws {A} (m : M A) (e : Error) (w : World) : Prop :=
  fst (m w) = inl e.

(** ** createInnerEditor *)

(** [outerView.dispatch(outerTr)]: the outer view takes the state the
    transaction leads to. What the host does next with its node views (it
    calls [onUpdate]) is a call of its own. *)
Definition outerDispatch (outerTr : OuterTr) : M unit :=
  modify (fun w => emit (EvOuter outerTr) (set_outer (otr_state outerTr) w)).

(** [steps.forEach(step => ...)], lines 102-109: each step is mapped through
    the offset map and added to the outer transaction; a step that maps to
    [null] throws. *)
Fixpoint forwardSteps (offsetMap : StepMap.t) (steps : list step)
    (outerTr : OuterTr) : Error + OuterTr :=
  match steps with
  | [] => inr outerTr
  | s :: rest =>
      match Step_map offsetMap s with
      | None => inl StepDiscarded
      | Some mapped =>
          match outerStep mapped outerTr with
          | inl e => inl e
          | inr outerTr' => forwardSteps offsetMap rest outerTr'
          end
      end
  end.

(** [transactions.forEach(transaction => ...)], lines 100-110. *)
Fixpoint forwardTransactions (offsetMap : StepMap.t)
    (transactions : list Transaction) (outerTr : OuterTr) : Error + OuterTr :=
  match transactions with
  | [] => inr outerTr
  | transaction :: rest =>
      match forwardSteps offsetMap (tr_steps transaction) outerTr with
      | inl e => inl e
      | inr outerTr' => forwardTransactions offsetMap rest outerTr'
      end
  end.

(** [innerView.updateState(state)]. *)
Definition updateState (s : EditorState) (v : InnerView) : InnerView :=
  mkView (view_id v) s.

(** The inner view once it has taken a transaction: what
    [applyTransaction] then [updateState] leave. *)
Definition applied (tr : Transaction) (iv : InnerView) : InnerView :=
  updateState (mkState (tr_doc tr) (tr_selection tr)) iv.

(** The [dispatchTransaction] handler of the inner view, lines 91-113. *)
Definition dispatchTransaction (tr : Transaction) : M unit :=
  w <- get ;;
  match innerView w with
  | None => ret tt
  | Some iv =>
      match applyTransaction (state iv) tr with
      | None => throw RangeError
      | Some (state', transactions) =>
          modify (set_innerView (Some (updateState state' iv))) ;;
          if negb (isSet (getMeta "fromOutside" tr)) then
            w1 <- get ;;
            let outerTr := newOuterTr (outer w1) in
            let offsetMap := StepMap.offset (getPos (outer w1) + 1) in
            outerTr' <- lift (forwardTransactions offsetMap transactions outerTr) ;;
            if docChanged outerTr' then outerDispatch outerTr' else ret tt
          else ret tt
      end
  end.

(** [innerView.dispatch(tr)]: the view hands the transaction to its
    [dispatchTransaction] handler. *)
Definition viewDispatch (tr : Transaction) : M unit :=
  modify (emit (EvInner tr)) ;;
  dispatchTransaction tr.

(** [openEditor($, doc)], lines 64-119. *)
Definition openEditor (d : Node) : M unit :=
  w <- get ;;
  let iv := mkView (created w) (EditorState_create d) in
  (* innerView = new EditorView($, ...) *)
  modify (fun w => set_innerView (Some iv)
                     (set_mounted (mounted w ++ [view_id iv])
                        (set_created (S (created w)) w))) ;;
  (* innerView.focus() *)
  modify (set_focused (Some (view_id iv))) ;;
  viewDispatch (setSelection (TextSelection_create 0) (newTr (state iv))) ;;
  modify (set_isEditing true).

(** [view.destroy()]. *)
Definition destroy (v : InnerView) (w : World) : World :=
  set_focused
    (match focused w with
     | Some i => if Nat.eqb i (view_id v) then None else Some i
     | None => None
     end)
    (set_mounted
       (filter (fun i => negb (Nat.eqb i (view_id v))) (mounted w)) w).

(** [closeEditor()], lines 121-127. *)
Definition closeEditor (w : World) : World :=
  let w1 := match innerView w with
            | Some iv => destroy iv w
            | None => w
            end in
  set_isEditing false (set_innerView None w1).

(** ** The renderer *)

(** The world right after the renderer is built, lines 140-154. *)
Definition initial (o : OuterState) (isEditable : bool) : World :=
  mkWorld false None o isEditable 0%nat [] None
    (if truthy codeStyle && truthy hideCodeStyle
     then classAdd hideCodeStyle (classAdd codeStyle [])
     else [])
    (classAdd "math-block" [])
    None false true false [].

Definition render (value : text) : M unit := modify (emit (EvRender value)).

(** Lines 174-179: the two ends of the changed range, moved past the start
    when they fall before it. *)
Definition adjustEnds (start endA endB : Z) : Z * Z :=
  let overlap := start - Z.min endA endB in
  if 0 <? overlap then (endA + overlap, endB + overlap) else (endA, endB).

(** [node.content.firstChild?.text || ''], line 187. *)
Definition newVal (node : Node) : text :=
  match Fragment.firstChild (content node) with
  | Some t => t
  | None => []
  end.

(** Lines 167-185: the inner document is patched towards the node. *)
Definition reconcile (node : Node) : M unit :=
  w <- get ;;
  match innerView w with
  | Some iv =>
      let st := state iv in
      match Fragment.findDiffStart (content node) (content (doc st)) with
      | Some start =>
          match Fragment.findDiffEnd (content node) (content (doc st)) with
          | Some (endA, endB) =>
              let (endA', endB') := adjustEnds start endA endB in
              sl <- lift (slice start endA' node) ;;
              tr <- lift (replace start endB' sl (newTr st)) ;;
              viewDispatch (setMeta "fromOutside" true tr)
          | None => ret tt
          end
      | None => ret tt
      end
  | None => ret tt
  end.

(** [onUpdate(node, isInit)], lines 160-191. *)
Definition onUpdate (node : Node) (isInit : bool) : M unit :=
  if isInit then
    modify (set_datasetValue (Some (attrs_value node))) ;;
    render (attrs_value node)
  else
    reconcile node ;;
    modify (set_datasetValue (Some (newVal node))) ;;
    render (newVal node).

(** [onFocus(node)], lines 192-199. *)
Definition onFocus (node : Node) : M unit :=
  w <- get ;;
  if negb (editable w) then ret tt
  else
    (if truthy hideCodeStyle
     then modify (fun w => set_editorClasses
                             (classRemove hideCodeStyle (editorClasses w)) w)
     else ret tt) ;;
    openEditor node ;;
    modify (fun w => set_domClasses
                       (classAdd "ProseMirror-selectednode" (domClasses w)) w).

(** [onBlur()], lines 200-206. *)
Definition onBlur (w : World) : World :=
  let w1 := if truthy hideCodeStyle
            then set_editorClasses (classAdd hideCodeStyle (editorClasses w)) w
            else w in
  let w2 := closeEditor w1 in
  set_domClasses (classRemove "ProseMirror-selectednode" (domClasses w2)) w2.

(** [onDestroy()], lines 207-211. *)
Definition onDestroy (w : World) : World :=
  set_attached false false false w.

End InnerEditor.

Notation "x <- m ;; k" := (bind m (fun x => k))
  (at level 61, m at next level, right associativity).
Notation "m ;; k" := (bind m (fun _ => k))
  (at level 61, right associativity).

(** ** The key map and the event filter *)

Section Keys.

Context {host : Host}.

(** The character that [Tab] inserts. *)
Definition tab : text := ["009"%char].

(** The [Tab] binding of the inner view, lines 70-75: a command that gets
    the state of the view and, when it is to act, the [dispatch] of the
    view. *)
Definition keyTab (st : EditorState) (dispatch : option (Transaction -> M unit))
  : M bool :=
  match dispatch with
  | Some d =>
      tr <- lift (insertText tab (newTr st)) ;;
      d tr ;;
      ret true
  | None => ret true
  end.

(** Where an event comes from: an element inside the DOM of the inner view
    with that identity, or any other element. *)
Inductive Target :=
| InView (id : nat)
| Elsewhere.

(** [view.dom.contains(target)]. *)
Definition contains (v : InnerView) (t : Target) : bool :=
  match t with
  | InView i => Nat.eqb i (view_id v)
  | Elsewhere => false
  end.

(** [stopEvent(event)], lines 212-217; [target] is [None] when the event has
    none. *)
Definition stopEvent (target : option Target) (w : World) : bool :=
  let isChild :=
    match target with
    | None => false
    | Some t =>
        match innerView w with
        | Some iv => contains iv t
        | None => false
        end
    end in
  match innerView w with
  | Some _ => isChild
  | None => false
  end.

(** ** Sequences of calls *)

(** What the host and the user can do to a renderer: the four callbacks, a
    transaction dispatched to the inner view, the Tab key pressed in it. *)
Inductive Call :=
| CallFocus (node : Node)
| CallBlur
| CallUpdate (node : Node) (isInit : bool)
| CallDestroy
| CallDispatch (tr : Transaction)
| CallTab.

(** The world a call leaves, thrown or not. A key only reaches a live
    view. *)
Definition perform (c : Call) (w : World) : World :=
  match c with
  | CallFocus node => after (onFocus node) w
  | CallBlur => onBlur w
  | CallUpdate node isInit => after (onUpdate node isInit) w
  | CallDestroy => onDestroy w
  | CallDispatch tr => after (viewDispatch tr) w
  | CallTab =>
      match innerView w with
      | Some iv => after (keyTab (state iv) (Some viewDispatch)) w
      | None => w
      end
  end.

Definition run (cs : list Call) (w : World) : World :=
  fold_left (fun w c => perform c w) cs w.

(** The closure is consistent: [isEditing] says whether there is an inner
    view, the inner view is mounted, and the mounted views are distinct ones
    among those constructed. *)
Definition consistent (w : World) : Prop :=
  isEditing w = (match innerView w with Some _ => true | None => false end) /\
  (forall iv, innerView w = Some iv -> In (view_id iv) (mounted w)) /\
  Forall (fun i => (i < created w)%nat) (mounted w) /\
  NoDup (mounted w).

(** The only view mounted is the inner view. *)
Definition single (w : World) : Prop :=
  mounted w = match innerView w with
              | Some iv => [view_id iv]
              | None => []
              end.

Definition idle (w : World) : bool :=
  match innerView w with
  | Some _ => false
  | None => true
  end.

(** A sequence of calls in which every focus request finds the renderer
    idle, as a host does that blurs a node before it focuses it again. *)
Fixpoint disciplined (cs : list Call) (w : World) : Prop :=
  match cs with
  | [] => True
  | c :: rest =>
      (match c with
       | CallFocus _ => idle w = true
       | _ => True
       end) /\ disciplined rest (perform c w)
  end.

End Keys.

(** ** A host to run the callbacks on *)

Module Sample.

(** A mark step: the range it marks. *)
Record MarkStep := mkMark { mark_from : Z; mark_to : Z }.

(** [addMarkStep.map(mapping)]: [null] when the range is deleted or ends up
    empty. *)
Definition mapMark (m : StepMap.t) (s : MarkStep) : option MarkStep :=
  let (fromPos, fromDel) := StepMap.mapResult m (mark_from s) 1 in
  let (toPos, toDel) := StepMap.mapResult m (mark_to s) (-1) in
  if (fromDel && toDel) || (toPos <=? fromPos) then None
  else Some (mkMark fromPos toPos).

(** An outer document seen from the hosted node: where the node starts and
    what it holds. *)
Record Outer := mkOuter { nodePos : Z; hosted : Node }.

(** A replace step applies when its range lies in the content of the hosted
    node, which starts one position after the node; marks are not
    represented. The rest of the outer document is not represented either: a
    range that leaves the content of the node does not apply, whatever the
    reason would be in a whole document. *)
Definition apply (s : Step MarkStep) (o : Outer) : option Outer :=
  match s with
  | ReplaceStep from to sl =>
      match replaceContent (from - (nodePos o + 1)) (to - (nodePos o + 1)) sl
              (hosted o) with
      | Some n => Some (mkOuter (nodePos o) n)
      | None => None
      end
  | OtherStep _ => Some o
  end.

Definition host : Host :=
  {| Other := MarkStep;
     mapOther := mapMark;
     OuterState := Outer;
     applyOuter := apply;
     getPos := nodePos;
     codeStyle := "code";
     hideCodeStyle := "hide" |}.

(** The node [x = 1] at position 7 of an editable outer document. *)
Definition node : Node := mkNode (txt "x = 1") (txt "x = 1").

#[local] Existing Instance host.

Definition world0 : World := initial (mkOuter 7 node) true.

(** The session that a focus request opens on [world0]. *)
Definition editing : World := after (onFocus node) world0.

(** The same, with the cursor of the inner view at the end of the text. *)
Definition atEnd : World :=
  set_innerView (Some (mkView 0 (mkState node (mkSelection 5 5)))) editing.

(** A session whose inner document holds [aaa], and a node that holds
    [aaaa]. *)
Definition aaa : World :=
  set_innerView
    (Some (mkView 0 (mkState (mkNode (txt "") (txt "aaa")) (mkSelection 0 0))))
    editing.

Definition aaaa : Node := mkNode (txt "") (txt "aaaa").

(** A transaction on [editing] that moves the cursor and has no step. *)
Definition moveCursor : Transaction :=
  setSelection (TextSelection_create 2) (newTr (mkState node (mkSelection 0 0))).

(** The same, tagged as coming from outside. *)
Definition echo : Transaction := setMeta "fromOutside" true moveCursor.

(** A transaction on [editing] with a mark step on an empty range, which the
    offset map does not map. *)
Definition markNothing : Transaction :=
  mkTransaction node node [OtherStep (mkMark 0 0)] (mkSelection 0 0) [].

End Sample.

(** ** Transactions and worlds for the sample host *)

Module Cases.

#[local] Existing Instance Sample.host.

(** The node [Sample.node] once [+1] is typed at its end. *)
Definition longer : Node := mkNode (txt "x = 1") (txt "x = 1+1").

(** The transaction that types [+1] at the end of [Sample.node]. *)
Definition typed : Transaction :=
  mkTransaction Sample.node longer [ReplaceStep 5 5 (txt "+1")]
    (mkSelection 7 7) [].

(** The same edit, tagged as coming from outside. *)
Definition typedEcho : Transaction := setMeta "fromOutside" true typed.

(** The same edit followed, in one transaction, by a mark step on an empty
    range, which the offset map does not map. *)
Definition typedThenMark : Transaction :=
  mkTransaction Sample.node longer
    [ReplaceStep 5 5 (txt "+1"); OtherStep (Sample.mkMark 0 0)]
    (mkSelection 7 7) [].

(** The transaction that replaces the first character of [Sample.node] by
    itself. *)
Definition sameText : Transaction :=
  mkTransaction Sample.node Sample.node [ReplaceStep 0 1 (txt "x")]
    (mkSelection 0 0) [].

(** A session whose inner document is ahead of the hosted node: the inner
    view holds [x = 1+1], the outer document still [x = 1]. *)
Definition ahead : World :=
  set_innerView (Some (mkView 0 (mkState longer (mkSelection 7 7))))
    Sample.editing.

(** The transaction that deletes the last character of [longer]. *)
Definition eraseLast : Transaction :=
  mkTransaction longer (mkNode (txt "x = 1") (txt "x = 1+"))
    [ReplaceStep 6 7 []] (mkSelection 6 6) [].

End Cases.


(** * Properties *)

(** ** The fragment diff *)

Lemma text_eqb_true (a b : text) : text_eqb a b = true <-> a = b.
Proof. unfold text_eqb; destruct (text_dec a b); split; congruence. Qed.

Lemma text_eqb_false (a b : text) : text_eqb a b = false <-> a <> b.
Proof. unfold text_eqb; destruct (text_dec a b); split; congruence. Qed.

(** The scan stops after a common prefix of the two texts. *)
Lemma diffStartText_prefix (a b : text) :
  forall pos, exists n : nat,
    Fragment.diffStartText a b pos = pos + Z.of_nat n /\
    (n <= List.length a)%nat /\ (n <= List.length b)%nat /\
    firstn n a = firstn n b.
Proof.
  revert b; induction a as [|x a IH]; intros b pos.
  - exists 0%nat; simpl; repeat split; try lia.
  - destruct b as [|y b].
    + exists 0%nat; simpl; repeat split; try lia.
    + simpl. destruct (ascii_dec x y) as [->|ne].
      * destruct (IH b (pos + 1)) as (n & E & La & Lb & F).
        exists (S n); simpl; repeat split; try lia.
        now rewrite F.
      * exists 0%nat; simpl; repeat split; try lia.
Qed.

Lemma findDiffStart_None (a b : text) :
  Fragment.findDiffStart a b = None <-> a = b.
Proof.
  unfold Fragment.findDiffStart.
  destruct a as [|x a], b as [|y b]; try (split; [discriminate|congruence]).
  - split; reflexivity.
  - destruct (text_eqb (x :: a) (y :: b)) eqn:E.
    + apply text_eqb_true in E; split; auto.
    + apply text_eqb_false in E; split; [discriminate|contradiction].
Qed.

Lemma findDiffEnd_None (a b : text) :
  Fragment.findDiffEnd a b = None <-> a = b.
Proof.
  unfold Fragment.findDiffEnd.
  destruct a as [|x a], b as [|y b]; try (split; [discriminate|congruence]).
  - split; reflexivity.
  - destruct (text_eqb (x :: a) (y :: b)) eqn:E.
    + apply text_eqb_true in E; split; auto.
    + apply text_eqb_false in E; split; [discriminate|contradiction].
Qed.

(** Where the two scans stop: after a common prefix of [p] characters and
    before a common suffix of [s] characters. *)
Lemma diff_bounds (a b : text) (start endA endB : Z) :
  Fragment.findDiffStart a b = Some start ->
  Fragment.findDiffEnd a b = Some (endA, endB) ->
  exists p s : nat,
    start = Z.of_nat p /\ endA = size a - Z.of_nat s /\
    endB = size b - Z.of_nat s /\
    (p <= List.length a)%nat /\ (p <= List.length b)%nat /\
    (s <= List.length a)%nat /\ (s <= List.length b)%nat /\
    firstn p a = firstn p b /\
    firstn s (rev a) = firstn s (rev b).
Proof.
  unfold Fragment.findDiffStart, Fragment.findDiffEnd.
  destruct a as [|x a], b as [|y b]; try discriminate.
  - intros [= <-] [= <- <-]. exists 0%nat, 0%nat.
    repeat split; simpl; lia.
  - intros [= <-] [= <- <-]. exists 0%nat, 0%nat.
    repeat split; simpl; lia.
  - destruct (text_eqb (x :: a) (y :: b)); try discriminate.
    intros Hs He.
    destruct (diffStartText_prefix (x :: a) (y :: b) 0) as (p & Ep & ? & ? & ?).
    destruct (diffStartText_prefix (rev (x :: a)) (rev (y :: b)) 0)
      as (s & Es & Ha & Hb & ?).
    rewrite length_rev in Ha, Hb.
    unfold Fragment.sameSuffix in He.
    rewrite Ep in Hs; rewrite Es in He.
    injection Hs as <-. injection He as <- <-.
    exists p, s.
    repeat split; auto; lia.
Qed.

(** Cutting a text at a common prefix and a common suffix of another and
    putting the middle of the other in between gives the other. *)
Lemma splice_nat (a b : text) (p s : nat) :
  firstn p a = firstn p b ->
  firstn s (rev a) = firstn s (rev b) ->
  (p + s <= List.length a)%nat -> (p + s <= List.length b)%nat ->
  firstn p b ++ firstn (List.length a - s - p) (skipn p a)
    ++ skipn (List.length b - s) b = a.
Proof.
  intros Hp Hs La Lb.
  assert (E : skipn (List.length b - s) b = skipn (List.length a - s) a).
  { rewrite <- (rev_involutive (skipn (List.length b - s) b)).
    rewrite <- firstn_rev, <- Hs, firstn_rev.
    apply rev_involutive. }
  assert (E' : skipn (List.length a - s) a
               = skipn (List.length a - s - p) (skipn p a)).
  { rewrite skipn_skipn. f_equal. lia. }
  rewrite E, E', <- Hp, firstn_skipn.
  apply firstn_skipn.
Qed.

Lemma firstn_le_eq {A} (n m : nat) (l l' : list A) :
  (n <= m)%nat -> firstn m l = firstn m l' -> firstn n l = firstn n l'.
Proof.
  intros Le E.
  rewrite <- (Nat.min_l n m Le), <- !firstn_firstn.
  now rewrite E.
Qed.

(** The range the patch replaces, after the overlap adjustment, lies in both
    texts, and the patch turns the inner text [b] into the outer text [a]. *)
Lemma adjusted_patch (a b : text) (start endA endB endA' endB' : Z) :
  Fragment.findDiffStart a b = Some start ->
  Fragment.findDiffEnd a b = Some (endA, endB) ->
  adjustEnds start endA endB = (endA', endB') ->
  0 <= start /\ start <= endA' <= size a /\ start <= endB' <= size b /\
  firstn (Z.to_nat start) b ++ cut start endA' a
    ++ skipn (Z.to_nat endB') b = a.
Proof.
  intros Hs He Hadj.
  destruct (diff_bounds a b start endA endB Hs He)
    as (p & s & -> & -> & -> & Pa & Pb & Sa & Sb & Fp & Fs).
  unfold size in *.
  assert (exists s' : nat, (s' <= s)%nat /\ (p + s' <= List.length a)%nat /\
            (p + s' <= List.length b)%nat /\
            endA' = Z.of_nat (List.length a) - Z.of_nat s' /\
            endB' = Z.of_nat (List.length b) - Z.of_nat s') as (s' & Le & La & Lb & -> & ->).
  { unfold adjustEnds in Hadj.
    destruct (0 <? _) eqn:O in Hadj; injection Hadj as <- <-.
    - apply Z.ltb_lt in O.
      exists (Nat.min (List.length a) (List.length b) - p)%nat. lia.
    - apply Z.ltb_ge in O. exists s. lia. }
  repeat split; try lia.
  unfold cut.
  rewrite Nat2Z.id.
  replace (Z.to_nat (Z.of_nat (List.length a) - Z.of_nat s' - Z.of_nat p))
    with (List.length a - s' - p)%nat by lia.
  replace (Z.to_nat (Z.of_nat (List.length b) - Z.of_nat s'))
    with (List.length b - s')%nat by lia.
  apply splice_nat; auto.
  eapply firstn_le_eq; eauto.
Qed.

Section Properties.

Context {host : Host}.

Local Abbreviation step := (Step Other).

(** ** The dispatch handler, case by case *)

Lemma applyTransaction_matching (st : EditorState) (tr : Transaction) :
  tr_before tr = doc st ->
  applyTransaction st tr = Some (mkState (tr_doc tr) (tr_selection tr), [tr]).
Proof.
  intros E. unfold applyTransaction.
  destruct (Node_dec (tr_before tr) (doc st)); [reflexivity|contradiction].
Qed.

Lemma forwardTransactions_single (om : StepMap.t) (tr : Transaction)
    (otr : OuterTr) :
  forwardTransactions om [tr] otr = forwardSteps om (tr_steps tr) otr.
Proof. simpl. now destruct (forwardSteps om (tr_steps tr) otr). Qed.

Lemma dispatch_closed (tr : Transaction) (w : World) :
  innerView w = None -> dispatchTransaction tr w = (inr tt, w).
Proof. intros E. unfold dispatchTransaction, bind, get. now rewrite E. Qed.

Lemma dispatch_mismatch (tr : Transaction) (iv : InnerView) (w : World) :
  innerView w = Some iv -> tr_before tr <> doc (state iv) ->
  dispatchTransaction tr w = (inl RangeError, w).
Proof.
  intros E N. unfold dispatchTransaction, bind, get. rewrite E.
  unfold applyTransaction.
  destruct (Node_dec (tr_before tr) (doc (state iv))); [contradiction|reflexivity].
Qed.

Lemma dispatch_external (tr : Transaction) (iv : InnerView) (w : World) :
  innerView w = Some iv -> tr_before tr = doc (state iv) ->
  isSet (getMeta "fromOutside" tr) = true ->
  dispatchTransaction tr w = (inr tt, set_innerView (Some (applied tr iv)) w).
Proof.
  intros E B T. unfold dispatchTransaction, bind, get. rewrite E.
  rewrite (applyTransaction_matching _ _ B).
  unfold modify. now rewrite T.
Qed.

Lemma dispatch_local (tr : Transaction) (iv : InnerView) (w : World) :
  innerView w = Some iv -> tr_before tr = doc (state iv) ->
  isSet (getMeta "fromOutside" tr) = false ->
  dispatchTransaction tr w =
    let w1 := set_innerView (Some (applied tr iv)) w in
    match forwardSteps (StepMap.offset (getPos (outer w) + 1)) (tr_steps tr)
            (newOuterTr (outer w)) with
    | inl e => (inl e, w1)
    | inr outerTr =>
        if docChanged outerTr
        then (inr tt, emit (EvOuter outerTr) (set_outer (otr_state outerTr) w1))
        else (inr tt, w1)
    end.
Proof.
  intros E B T. unfold dispatchTransaction, bind, get. rewrite E.
  rewrite (applyTransaction_matching _ _ B).
  unfold modify, lift. rewrite T. cbn [negb].
  rewrite forwardTransactions_single. cbn [outer set_innerView].
  destruct (forwardSteps _ _ _) as [e|otr]; [reflexivity|].
  unfold outerDispatch, modify, ret.
  now destruct (docChanged otr).
Qed.

(** The steps before a step that does not map are forwarded; the scan then
    stops with the error. *)
Lemma forwardSteps_discarded (om : StepMap.t) (pre post : list step) (s : step)
    (otr otr' : OuterTr) :
  forwardSteps om pre otr = inr otr' ->
  Step_map om s = None ->
  forwardSteps om (pre ++ s :: post) otr = inl StepDiscarded.
Proof.
  revert otr; induction pre as [|x pre IH]; intros otr F N; simpl in *.
  - now rewrite N.
  - destruct (Step_map om x); [|discriminate].
    destruct (outerStep s0 otr); [discriminate|].
    now apply IH.
Qed.

(** The steps of the outer transaction are the steps it had, then the images
    of the forwarded steps under the map, in order. *)
Lemma forwardSteps_steps (om : StepMap.t) (steps : list step)
    (otr otr' : OuterTr) :
  forwardSteps om steps otr = inr otr' ->
  exists mapped,
    otr_steps otr' = otr_steps otr ++ mapped /\
    Forall2 (fun s s' => Step_map om s = Some s') steps mapped.
Proof.
  revert otr; induction steps as [|x steps IH]; intros otr F; simpl in F.
  - injection F as <-. exists []. rewrite app_nil_r. split; constructor.
  - destruct (Step_map om x) as [x'|] eqn:Ex; [|discriminate].
    unfold outerStep in F.
    destruct (applyOuter x' (otr_state otr)) as [o'|]; [|discriminate].
    destruct (IH _ F) as (mapped & E & FA).
    exists (x' :: mapped). cbn [otr_steps] in E.
    rewrite E, <- app_assoc. split; [reflexivity|].
    now constructor.
Qed.

(** ** Reconciliation, case by case *)

Lemma slice_in_range (from to : Z) (n : Node) :
  0 <= from -> from <= to -> to <= size (content n) ->
  slice from to n = inr (cut from to (content n)).
Proof.
  intros H0 H1 H2. unfold slice.
  destruct (from =? to) eqn:E.
  - apply Z.eqb_eq in E. subst to. unfold cut.
    now rewrite Z.sub_diag.
  - replace ((0 <=? from) && (from <=? size (content n)) && (0 <=? to)
             && (to <=? size (content n))) with true; [reflexivity|].
    symmetry. rewrite !andb_true_iff, !Z.leb_le. lia.
Qed.

Lemma reconcile_closed (node : Node) (w : World) :
  innerView w = None -> reconcile node w = (inr tt, w).
Proof. intros E. unfold reconcile, bind, get. now rewrite E. Qed.

Lemma reconcile_same (node : Node) (iv : InnerView) (w : World) :
  innerView w = Some iv ->
  Fragment.findDiffStart (content node) (content (doc (state iv))) = None ->
  reconcile node w = (inr tt, w).
Proof. intros E D. unfold reconcile, bind, get. now rewrite E, D. Qed.

(** When the contents differ, one patch is dispatched to the inner view: it
    carries the tag, holds one replace step and leads to the content of the
    node. *)
Lemma reconcile_diff (node : Node) (iv : InnerView) (w : World) (start : Z) :
  innerView w = Some iv ->
  Fragment.findDiffStart (content node) (content (doc (state iv))) = Some start ->
  exists (endA endB : Z) (patch : Transaction),
    Fragment.findDiffEnd (content node) (content (doc (state iv)))
      = Some (endA, endB) /\
    tr_before patch = doc (state iv) /\
    tr_doc patch = mkNode (attrs_value (doc (state iv))) (content node) /\
    tr_steps patch =
      [ReplaceStep start (snd (adjustEnds start endA endB))
         (cut start (fst (adjustEnds start endA endB)) (content node))] /\
    getMeta "fromOutside" patch = Some true /\
    replaceContent start (snd (adjustEnds start endA endB))
      (cut start (fst (adjustEnds start endA endB)) (content node))
      (doc (state iv)) = Some (tr_doc patch) /\
    reconcile node w =
      (inr tt, set_innerView (Some (applied patch iv)) (emit (EvInner patch) w)).
Proof.
  intros E D.
  set (a := content node) in *. set (b := content (doc (state iv))) in *.
  destruct (Fragment.findDiffEnd a b) as [[endA endB]|] eqn:DE.
  2:{ apply findDiffEnd_None in DE. apply findDiffStart_None in DE. congruence. }
  destruct (adjustEnds start endA endB) as [endA' endB'] eqn:A.
  destruct (adjusted_patch a b start endA endB endA' endB' D DE A)
    as (S0 & [SA1 SA2] & [SB1 SB2] & SP).
  assert (NE : a <> b).
  { intros EQ. apply findDiffStart_None in EQ. congruence. }
  assert (R : replace start endB' (cut start endA' a) (newTr (state iv))
              = stepReplace start endB' (cut start endA' a) (newTr (state iv))).
  { unfold replace.
    destruct ((start =? endB') && (size (cut start endA' a) =? 0)) eqn:Z0.
    - exfalso. apply andb_true_iff in Z0 as [Z1 Z2].
      apply Z.eqb_eq in Z1, Z2. subst endB'.
      assert (cut start endA' a = []) as C0.
      { unfold size in Z2. destruct (cut start endA' a); [reflexivity|].
        simpl in Z2. lia. }
      rewrite C0 in SP. simpl in SP. rewrite firstn_skipn in SP.
      congruence.
    - unfold inRange. cbn [newTr tr_doc]. fold b.
      replace ((0 <=? start) && (start <=? size b)
               && ((0 <=? endB') && (endB' <=? size b))) with true;
        [reflexivity|].
      symmetry. rewrite !andb_true_iff, !Z.leb_le. lia. }
  assert (RC : replaceContent start endB' (cut start endA' a) (doc (state iv))
               = Some (mkNode (attrs_value (doc (state iv))) a)).
  { unfold replaceContent. fold b.
    replace ((0 <=? start) && (start <=? endB') && (endB' <=? size b)) with true.
    - now rewrite SP.
    - symmetry. rewrite !andb_true_iff, !Z.leb_le. lia. }
  unfold stepReplace in R. cbn [newTr tr_doc] in R. rewrite RC in R.
  match type of R with _ = inr ?t =>
    exists endA, endB, (setMeta "fromOutside" true t) end.
  rewrite A. cbn [fst snd].
  repeat split; [exact RC|].
  unfold reconcile, bind, get. rewrite E. fold a b. rewrite D, DE, A.
  unfold lift. rewrite (slice_in_range start endA' node S0 SA1 SA2).
  fold a. rewrite R.
  unfold viewDispatch, bind, modify.
  erewrite dispatch_external; [reflexivity| exact E | reflexivity | reflexivity].
Qed.

Lemma onUpdate_reconciled (node : Node) (w : World) :
  onUpdate node false w =
    match reconcile node w with
    | (inr _, w') =>
        (inr tt, emit (EvRender (newVal node))
                   (set_datasetValue (Some (newVal node)) w'))
    | (inl e, w') => (inl e, w')
    end.
Proof.
  unfold onUpdate, bind, modify, render.
  destruct (reconcile node w) as [[e|[]] w']; reflexivity.
Qed.

(** What [reconcile] does, in one statement: nothing, or one tagged patch
    dispatched to the inner view. *)
Lemma reconcile_cases (node : Node) (w : World) :
  (reconcile node w = (inr tt, w) /\
   forall iv, innerView w = Some iv -> content (doc (state iv)) = content node) \/
  exists iv patch,
    innerView w = Some iv /\
    content (doc (state iv)) <> content node /\
    tr_doc patch = mkNode (attrs_value (doc (state iv))) (content node) /\
    getMeta "fromOutside" patch = Some true /\
    reconcile node w =
      (inr tt, set_innerView (Some (applied patch iv)) (emit (EvInner patch) w)).
Proof.
  destruct (innerView w) as [iv|] eqn:E.
  2:{ left. split; [now apply reconcile_closed|discriminate]. }
  destruct (Fragment.findDiffStart (content node) (content (doc (state iv))))
    as [start|] eqn:D.
  2:{ left. split; [now apply (reconcile_same node iv)|].
      intros iv' [= <-]. apply findDiffStart_None in D. now symmetry. }
  right.
  destruct (reconcile_diff node iv w start E D)
    as (endA & endB & patch & _ & _ & Hd & _ & Hm & _ & Hr).
  exists iv, patch. repeat split; auto.
  intros EQ. symmetry in EQ. apply findDiffStart_None in EQ. congruence.
Qed.

(** ** The properties of the specification *)

(** C1. Loop freedom. A transaction that carries the [fromOutside] tag is
    applied to the inner view without anything being dispatched to the outer
    view: the outer state and the trace are as before. And whatever
    [onUpdate] dispatches to the inner view carries the tag; [onUpdate]
    itself dispatches nothing to the outer view and leaves its state. *)
Theorem loop_freedom :
  (forall (tr : Transaction) (w : World),
     isSet (getMeta "fromOutside" tr) = true ->
     outer (after (dispatchTransaction tr) w) = outer w /\
     trace (after (dispatchTransaction tr) w) = trace w) /\
  (forall (node : Node) (isInit : bool) (w : World),
     outer (after (onUpdate node isInit) w) = outer w /\
     exists added,
       trace (after (onUpdate node isInit) w) = trace w ++ added /\
       Forall (fun e => match e with
                        | EvOuter _ => False
                        | EvInner patch =>
                            isSet (getMeta "fromOutside" patch) = true
                        | EvRender _ => True
                        end) added).
Proof.
  split.
  - intros tr w T. unfold after.
    destruct (innerView w) as [iv|] eqn:E.
    + destruct (Node_dec (tr_before tr) (doc (state iv))) as [B|B].
      * rewrite (dispatch_external tr iv w E B T). now split.
      * rewrite (dispatch_mismatch tr iv w E B). now split.
    + rewrite (dispatch_closed tr w E). now split.
  - intros node [|] w; unfold after.
    + split; [reflexivity|].
      exists [EvRender (attrs_value node)]. split; [reflexivity|].
      now repeat constructor.
    + rewrite onUpdate_reconciled.
      destruct (reconcile_cases node w)
        as [[R _]|(iv & patch & _ & _ & _ & Hm & R)]; rewrite R; cbn.
      * split; [reflexivity|].
        exists [EvRender (newVal node)]. split; [reflexivity|].
        now repeat constructor.
      * split; [reflexivity|].
        exists [EvInner patch; EvRender (newVal node)].
        split; [now rewrite <- app_assoc|].
        repeat constructor. now rewrite Hm.
Qed.

(** C2. Overlap correctness. When the start of the diff lies past the
    smaller end, both ends are moved by exactly the overlap,
    [start - min(endA, endB)]. With that adjustment the patch that [onUpdate]
    dispatches turns the inner content into the content of the node, whatever
    the two texts are, repeated characters included: after [onUpdate] the
    inner document holds exactly the outer content. *)
Theorem overlap_correctness :
  (forall start endA endB : Z,
     start > Z.min endA endB ->
     adjustEnds start endA endB =
       (endA + (start - Z.min endA endB), endB + (start - Z.min endA endB))) /\
  (forall (node : Node) (iv : InnerView) (w : World),
     innerView w = Some iv ->
     returns (onUpdate node false) w /\
      (exists iv',
        innerView (after (onUpdate node false) w) = Some iv' /\
        content (doc (state iv')) = content node) /\
     (forall start endA endB endA' endB',
        Fragment.findDiffStart (content node) (content (doc (state iv)))
          = Some start ->
        Fragment.findDiffEnd (content node) (content (doc (state iv)))
          = Some (endA, endB) ->
        adjustEnds start endA endB = (endA', endB') ->
        exists patch,
          In (EvInner patch) (trace (after (onUpdate node false) w)) /\
          tr_steps patch =
            [ReplaceStep start endB' (cut start endA' (content node))] /\
          replaceContent start endB' (cut start endA' (content node))
            (doc (state iv))
          = Some (mkNode (attrs_value (doc (state iv))) (content node)))).
Proof.
  split.
  - intros start endA endB G. unfold adjustEnds.
    destruct (0 <? start - Z.min endA endB) eqn:O; [reflexivity|].
    apply Z.ltb_ge in O. lia.
  - intros node iv w E. unfold returns, after.
    rewrite onUpdate_reconciled.
    destruct (reconcile_cases node w)
      as [[R Same]|(iv0 & patch & E0 & _ & Hd & _ & R)]; rewrite R; cbn.
    + split; [now exists tt|]. split.
      * exists iv. split; [exact E|]. now apply Same.
      * intros start endA endB endA' endB' D. exfalso.
        specialize (Same iv E). symmetry in Same.
        apply findDiffStart_None in Same. congruence.
    + split; [now exists tt|]. split.
      * exists (applied patch iv0). split; [reflexivity|].
        cbn. now rewrite Hd.
      * intros start endA endB endA' endB' D DE A.
        destruct (reconcile_diff node iv w start E D)
          as (endA0 & endB0 & patch0 & DE0 & _ & Hd0 & Hs0 & _ & RC & R0).
        rewrite DE in DE0. injection DE0 as <- <-.
        rewrite A in Hs0, RC. cbn [fst snd] in Hs0, RC.
        exists patch0. rewrite R in R0. injection R0 as R0.
        assert (T : trace w ++ [EvInner patch] = trace w ++ [EvInner patch0])
          by congruence.
        apply app_inv_head in T. injection T as ->.
        split; [|split; [exact Hs0|now rewrite RC, Hd0]].
        apply in_or_app. left. apply in_or_app. right. now left.
Qed.

(** A step that does not map stops the forwarding with an error, whichever
    step it is. *)
Lemma forwardSteps_fails (om : StepMap.t) (steps : list step) (s : step)
    (otr : OuterTr) :
  In s steps -> Step_map om s = None ->
  exists e, forwardSteps om steps otr = inl e.
Proof.
  revert otr; induction steps as [|x steps IH]; intros otr I N; [destruct I|].
  simpl. destruct I as [->|I].
  - rewrite N. now exists StepDiscarded.
  - destruct (Step_map om x); [|now exists StepDiscarded].
    destruct (outerStep s0 otr) as [e|otr']; [now exists e|].
    now apply IH.
Qed.

(** C3. A step that maps to [null] is fatal and loud. When the forwarding of
    a transaction that does not carry the tag reaches a step whose image
    under the offset map is [null], the handler throws
    [Error('step discarded!')]; nothing is dispatched to the outer view,
    whose state stays as it was. *)
Theorem step_mapping_failure_is_fatal :
  forall (tr : Transaction) (iv : InnerView) (w : World)
         (pre post : list step) (s : step) (outerTr : OuterTr),
    innerView w = Some iv ->
    tr_before tr = doc (state iv) ->
    isSet (getMeta "fromOutside" tr) = false ->
    tr_steps tr = pre ++ s :: post ->
    forwardSteps (StepMap.offset (getPos (outer w) + 1)) pre
      (newOuterTr (outer w)) = inr outerTr ->
    Step_map (StepMap.offset (getPos (outer w) + 1)) s = None ->
    throws (dispatchTransaction tr) StepDiscarded w /\
    outer (after (dispatchTransaction tr) w) = outer w /\
    trace (after (dispatchTransaction tr) w) = trace w.
Proof.
  intros tr iv w pre post s otr E B T S F N.
  unfold throws, after.
  rewrite (dispatch_local tr iv w E B T). cbv zeta.
  rewrite S, (forwardSteps_discarded _ pre post s _ otr F N).
  now repeat split.
Qed.

(** C10. The inner edit is applied first and is not rolled back. Whatever
    the forwarding does afterwards, the inner view holds the document and the
    selection of the transaction. When the handler throws, the outer state
    and the trace are as before: the inner document has the edit and the
    outer document does not. A step that does not map makes it throw. *)
Theorem failed_forwarding_keeps_inner_edit :
  forall (tr : Transaction) (iv : InnerView) (w : World),
    innerView w = Some iv ->
    tr_before tr = doc (state iv) ->
    (exists iv',
       innerView (after (dispatchTransaction tr) w) = Some iv' /\
       doc (state iv') = tr_doc tr /\
       selection (state iv') = tr_selection tr) /\
    (forall e,
       throws (dispatchTransaction tr) e w ->
       outer (after (dispatchTransaction tr) w) = outer w /\
       trace (after (dispatchTransaction tr) w) = trace w) /\
    (forall s,
       isSet (getMeta "fromOutside" tr) = false ->
       In s (tr_steps tr) ->
       Step_map (StepMap.offset (getPos (outer w) + 1)) s = None ->
       exists e, throws (dispatchTransaction tr) e w).
Proof.
  intros tr iv w E B. unfold throws, after.
  destruct (isSet (getMeta "fromOutside" tr)) eqn:T.
  - rewrite (dispatch_external tr iv w E B T). split; [|split].
    + exists (applied tr iv). now repeat split.
    + discriminate.
    + discriminate.
  - rewrite (dispatch_local tr iv w E B T). cbv zeta.
    destruct (forwardSteps _ (tr_steps tr) _) as [e|otr] eqn:F.
    + split; [|split].
      * exists (applied tr iv). now repeat split.
      * intros e' _. now split.
      * intros. now exists e.
    + split; [|split].
      * exists (applied tr iv). destruct (docChanged otr); now repeat split.
      * destruct (docChanged otr); discriminate.
      * intros s _ I N.
        destruct (forwardSteps_fails _ _ s (newOuterTr (outer w)) I N) as [e Fe].
        congruence.
Qed.

(** C9, as the code has it. No outer edit without a step. When the outer
    transaction that accumulates the mapped steps holds no step, its
    [docChanged] is false and the handler returns without dispatching it: the
    outer state and the trace are as before. The guard looks at the steps,
    not at the content they leave. *)
Theorem no_outer_edit_without_step :
  forall (tr : Transaction) (iv : InnerView) (w : World) (outerTr : OuterTr),
    innerView w = Some iv ->
    tr_before tr = doc (state iv) ->
    isSet (getMeta "fromOutside" tr) = false ->
    forwardTransactions (StepMap.offset (getPos (outer w) + 1)) [tr]
      (newOuterTr (outer w)) = inr outerTr ->
    otr_steps outerTr = [] ->
    docChanged outerTr = false /\
    returns (dispatchTransaction tr) w /\
    outer (after (dispatchTransaction tr) w) = outer w /\
    trace (after (dispatchTransaction tr) w) = trace w.
Proof.
  intros tr iv w otr E B T F N.
  assert (D : docChanged otr = false) by (unfold docChanged; now rewrite N).
  split; [exact D|]. unfold returns, after.
  rewrite forwardTransactions_single in F.
  rewrite (dispatch_local tr iv w E B T). cbv zeta. rewrite F, D.
  split; [now exists tt|now split].
Qed.

(** C7. When a patch is emitted. With a session open, [onUpdate] dispatches
    nothing to the inner view when no diff start is found, which is when the
    two contents are the same; the only event is the render. When a diff
    start is found, one patch is dispatched, a single replace step from the
    start to the adjusted inner end, whatever the width of that range, so
    also when it is empty. *)
Theorem patch_emission :
  forall (node : Node) (iv : InnerView) (w : World),
    innerView w = Some iv ->
    (Fragment.findDiffStart (content node) (content (doc (state iv))) = None
     <-> content node = content (doc (state iv))) /\
    (Fragment.findDiffStart (content node) (content (doc (state iv))) = None ->
     trace (after (onUpdate node false) w) = trace w ++ [EvRender (newVal node)] /\
     innerView (after (onUpdate node false) w) = Some iv) /\
    (forall start,
       Fragment.findDiffStart (content node) (content (doc (state iv)))
         = Some start ->
       exists endA endB patch,
         Fragment.findDiffEnd (content node) (content (doc (state iv)))
           = Some (endA, endB) /\
         tr_steps patch =
           [ReplaceStep start (snd (adjustEnds start endA endB))
              (cut start (fst (adjustEnds start endA endB)) (content node))] /\
         trace (after (onUpdate node false) w)
           = trace w ++ [EvInner patch; EvRender (newVal node)]).
Proof.
  intros node iv w E. split; [apply findDiffStart_None|]. split.
  - intros D. unfold after. rewrite onUpdate_reconciled.
    rewrite (reconcile_same node iv w E D). now split.
  - intros start D. unfold after. rewrite onUpdate_reconciled.
    destruct (reconcile_diff node iv w start E D)
      as (endA & endB & patch & DE & _ & _ & Hs & _ & _ & R).
    exists endA, endB, patch. rewrite R. cbn.
    repeat split; auto. now rewrite <- app_assoc.
Qed.

(** C8. What [onUpdate] renders. On the initial call it stores the [value]
    attribute of the node, renders it and does nothing else. On every other
    call it returns, and the last thing it does is to store and render the
    text of the first child of the node content (the empty text when there is
    none), a session being open or not. *)
Theorem onUpdate_rendering :
  (forall (node : Node) (w : World),
     onUpdate node true w =
       (inr tt, emit (EvRender (attrs_value node))
                  (set_datasetValue (Some (attrs_value node)) w))) /\
  (forall (node : Node) (w : World),
     returns (onUpdate node false) w /\
     datasetValue (after (onUpdate node false) w) = Some (newVal node) /\
     exists added,
       trace (after (onUpdate node false) w)
         = trace w ++ added ++ [EvRender (newVal node)]) /\
  (forall node : Node, newVal node = content node).
Proof.
  split; [reflexivity|]. split.
  - intros node w. unfold returns, after. rewrite onUpdate_reconciled.
    destruct (reconcile_cases node w)
      as [[R _]|(iv & patch & _ & _ & _ & _ & R)]; rewrite R; cbn.
    + split; [now exists tt|]. split; [reflexivity|]. now exists [].
    + split; [now exists tt|]. split; [reflexivity|].
      exists [EvInner patch]. now rewrite <- app_assoc.
  - intros node. unfold newVal, Fragment.firstChild.
    now destruct (content node).
Qed.

(** ** The offset map on replace steps *)

Ltac split_comparisons :=
  repeat match goal with
    | |- context [?a <? ?b] => destruct (Z.ltb_spec a b)
    | |- context [?a <=? ?b] => destruct (Z.leb_spec a b)
    | |- context [?a =? ?b] => destruct (Z.eqb_spec a b)
    end.

Lemma mapResult_offset_from (n pos : Z) :
  0 < n -> 0 <= pos ->
  StepMap.mapResult (StepMap.offset n) pos 1 = (n + pos, false).
Proof.
  intros N P. unfold StepMap.offset, StepMap.mapResult.
  destruct (Z.eqb_spec n 0); [lia|].
  destruct (Z.ltb_spec n 0); [lia|].
  cbn -[Z.add Z.sub Z.leb Z.ltb Z.eqb].
  split_comparisons; cbn [negb]; f_equal; cbn in *; lia.
Qed.

Lemma mapResult_offset_to (n pos : Z) :
  0 < n -> 0 <= pos ->
  StepMap.mapResult (StepMap.offset n) pos (-1)
  = (if pos =? 0 then 0 else n + pos, false).
Proof.
  intros N P. unfold StepMap.offset, StepMap.mapResult.
  destruct (Z.eqb_spec n 0); [lia|].
  destruct (Z.ltb_spec n 0); [lia|].
  cbn -[Z.add Z.sub Z.leb Z.ltb Z.eqb].
  split_comparisons; cbn [negb]; f_equal; cbn in *; lia.
Qed.

(** Through [StepMap.offset(n)] a replace step keeps its slice and has both
    ends moved by [n]. *)
Lemma Step_map_offset_replace (n from to : Z) (sl : text) :
  0 < n -> 0 <= from <= to ->
  Step_map (StepMap.offset n) (ReplaceStep from to sl)
  = Some (ReplaceStep (n + from) (n + to) sl).
Proof.
  intros N [F T]. unfold Step_map.
  rewrite (mapResult_offset_from n from N F).
  rewrite (mapResult_offset_to n to N) by lia.
  cbn [andb].
  replace (Z.max (n + from) (if to =? 0 then 0 else n + to)) with (n + to);
    [reflexivity|].
  destruct (to =? 0) eqn:E; [apply Z.eqb_eq in E|apply Z.eqb_neq in E]; lia.
Qed.

(** C6. The offset of forwarded steps. Every step of a forwarded transaction
    goes through [StepMap.offset(getPos() + 1)], with [getPos] read on the
    outer state the handler finds when it runs; the outer transaction holds
    the images in order and, when there is one at least, is the one
    transaction dispatched. On a replace step the map adds the offset to both
    ends. So typing [+1] at the end of [x = 1] dispatches one outer
    transaction whose one step inserts [+1] at [getPos() + 1 + 5]. *)
Theorem offset_mapping :
  (forall (tr : Transaction) (iv : InnerView) (w : World) (outerTr : OuterTr),
     innerView w = Some iv ->
     tr_before tr = doc (state iv) ->
     isSet (getMeta "fromOutside" tr) = false ->
     forwardSteps (StepMap.offset (getPos (outer w) + 1)) (tr_steps tr)
       (newOuterTr (outer w)) = inr outerTr ->
     Forall2
       (fun s s' => Step_map (StepMap.offset (getPos (outer w) + 1)) s = Some s')
       (tr_steps tr) (otr_steps outerTr) /\
     (tr_steps tr <> [] ->
      trace (after (dispatchTransaction tr) w) = trace w ++ [EvOuter outerTr] /\
      outer (after (dispatchTransaction tr) w) = otr_state outerTr)) /\
  (forall (n from to : Z) (sl : text),
     0 < n -> 0 <= from <= to ->
     Step_map (StepMap.offset n) (ReplaceStep from to sl)
     = Some (ReplaceStep (n + from) (n + to) sl)) /\
  (forall (iv : InnerView) (w : World) (o' : OuterState),
     innerView w = Some iv ->
     content (doc (state iv)) = txt "x = 1" ->
     selection (state iv) = mkSelection 5 5 ->
     0 <= getPos (outer w) ->
     let basePosition := getPos (outer w) + 1 in
     let inserted :=
       ReplaceStep (basePosition + 5) (basePosition + 5) (txt "+1") in
     applyOuter inserted (outer w) = Some o' ->
     exists tr,
       insertText (txt "+1") (newTr (state iv)) = inr tr /\
       content (tr_doc tr) = txt "x = 1+1" /\
       trace (after (dispatchTransaction tr) w)
         = trace w ++ [EvOuter (mkOuterTr o' [inserted])]).
Proof.
  split; [|split].
  - intros tr iv w otr E B T F.
    destruct (forwardSteps_steps _ _ _ _ F) as (mapped & Es & FA).
    cbn in Es. subst mapped. split; [exact FA|].
    intros NE. unfold after.
    rewrite (dispatch_local tr iv w E B T). cbv zeta. rewrite F.
    assert (D : docChanged otr = true).
    { unfold docChanged. destruct (otr_steps otr); [|reflexivity].
      inversion FA. congruence. }
    rewrite D. now split.
  - apply Step_map_offset_replace.
  - intros iv w o' E C S G base inserted A.
    destruct iv as [id [[attrs c] sel]]. cbn in C, S. subst c sel.
    exists (mkTransaction (mkNode attrs (txt "x = 1"))
              (mkNode attrs (txt "x = 1+1"))
              [ReplaceStep 5 5 (txt "+1")] (mkSelection 7 7) []).
    split; [reflexivity|]. split; [reflexivity|].
    unfold after. erewrite dispatch_local; [|exact E|reflexivity|reflexivity].
    cbv zeta. cbn [tr_steps forwardSteps].
    rewrite Step_map_offset_replace by lia.
    unfold outerStep. cbn [newOuterTr otr_state otr_steps].
    fold base. fold inserted. rewrite A. reflexivity.
Qed.

(** ** The life cycle *)

(** On a world given by its fields, the setters compute. *)
Ltac world_fields :=
  cbv beta iota zeta delta
    [destroy emit set_attached set_datasetValue set_domClasses
     set_editorClasses set_focused set_mounted set_created set_outer
     set_innerView set_isEditing
     isEditing innerView outer editable created mounted focused
     editorClasses domClasses datasetValue previewAttached editorAttached
     domAttached trace].

Lemma classAdd_idem (c : string) (l : list string) :
  classAdd c (classAdd c l) = classAdd c l.
Proof.
  unfold classAdd. destruct (in_dec string_dec c l) as [I|N].
  - destruct (in_dec string_dec c l); [reflexivity|contradiction].
  - destruct (in_dec string_dec c (l ++ [c])) as [I|N']; [reflexivity|].
    exfalso. apply N'. apply in_or_app. right. now left.
Qed.

Lemma classAdd_present (c : string) (l : list string) :
  In c l -> classAdd c l = l.
Proof.
  intros I. unfold classAdd.
  destruct (in_dec string_dec c l); [reflexivity|contradiction].
Qed.

Lemma classRemove_absent (c : string) (l : list string) :
  ~ In c l -> classRemove c l = l.
Proof.
  unfold classRemove. induction l as [|d l IH]; intros N; [reflexivity|].
  simpl. destruct (string_dec d c) as [->|_].
  - exfalso. apply N. now left.
  - f_equal. apply IH. intros I. apply N. now right.
Qed.

Lemma classRemove_gone (c : string) (l : list string) :
  ~ In c (classRemove c l).
Proof.
  unfold classRemove. intros I. apply filter_In in I as [_ F].
  now destruct (string_dec c c).
Qed.

Lemma classRemove_idem (c : string) (l : list string) :
  classRemove c (classRemove c l) = classRemove c l.
Proof. apply classRemove_absent, classRemove_gone. Qed.

Lemma closeEditor_closed (w : World) :
  isEditing w = false -> innerView w = None -> closeEditor w = w.
Proof.
  intros I V. unfold closeEditor. rewrite V.
  destruct w; cbn in *. now subst.
Qed.

(** [openEditor] returns: it has constructed one more view, mounted and
    focused, which is the inner view from then on; the transaction that puts
    the selection at the start goes to it and is not forwarded. *)
Lemma openEditor_world (d : Node) (w : World) :
  exists w',
    openEditor d w = (inr tt, w') /\
    isEditing w' = true /\
    innerView w' = Some (mkView (created w) (EditorState_create d)) /\
    created w' = S (created w) /\
    mounted w' = mounted w ++ [created w] /\
    focused w' = Some (created w) /\
    outer w' = outer w /\
    editable w' = editable w /\
    editorClasses w' = editorClasses w /\
    domClasses w' = domClasses w /\
    (forall e, In e (trace w') -> In e (trace w) \/ exists tr, e = EvInner tr).
Proof.
  cbv beta iota zeta delta [openEditor bind get modify viewDispatch].
  erewrite dispatch_local; [|reflexivity|reflexivity|reflexivity].
  cbn. eexists. split; [reflexivity|]. cbn.
  repeat split.
  intros e I. apply in_app_or in I as [I|[<-|[]]]; [now left|right; eauto].
Qed.

(** A focus request on an editable view returns, with a new inner view on
    the node as the session. *)
Lemma onFocus_world (node : Node) (w : World) :
  editable w = true ->
  exists w',
    onFocus node w = (inr tt, w') /\
    isEditing w' = true /\
    innerView w' = Some (mkView (created w) (EditorState_create node)) /\
    created w' = S (created w) /\
    mounted w' = mounted w ++ [created w] /\
    outer w' = outer w.
Proof.
  intros Ed. unfold onFocus, bind, get. rewrite Ed. cbn [negb].
  destruct (truthy hideCodeStyle); unfold modify, ret;
    match goal with
    | |- context [openEditor node ?w0] =>
        destruct (openEditor_world node w0)
          as (w' & R & H1 & H2 & H3 & H4 & _ & H6 & _)
    end;
    rewrite R; eexists; (split; [reflexivity|]); cbn in *; now repeat split.
Qed.

(** C4, as the code has it. Blur is idempotent, and a blur on an idle
    renderer (no inner view, the editor hidden, the node not marked) changes
    nothing. A focus request on a view that is not editable changes nothing.
    A focus request on an editable view is not guarded by the state: it
    always constructs one more inner view on the node, with the selection at
    the start, and sets [isEditing]; the session it leaves is the same after
    one request or two, the number of views constructed is not. *)
Theorem lifecycle_idempotence_amended :
  (forall w : World, onBlur (onBlur w) = onBlur w) /\
  (forall w : World,
     isEditing w = false -> innerView w = None ->
     (truthy hideCodeStyle = true -> In hideCodeStyle (editorClasses w)) ->
     ~ In "ProseMirror-selectednode"%string (domClasses w) ->
     onBlur w = w) /\
  (forall (node : Node) (w : World),
     editable w = false -> onFocus node w = (inr tt, w)) /\
  (forall (node : Node) (w : World),
     editable w = true ->
     returns (onFocus node) w /\
     isEditing (after (onFocus node) w) = true /\
     innerView (after (onFocus node) w)
       = Some (mkView (created w) (EditorState_create node)) /\
     created (after (onFocus node) w) = S (created w) /\
     mounted (after (onFocus node) w) = mounted w ++ [created w] /\
     outer (after (onFocus node) w) = outer w).
Proof.
  split; [|split; [|split]].
  - intros w. unfold onBlur, closeEditor.
    destruct (truthy hideCodeStyle); destruct w as [ie [iv|] ? ? ? ? ? ? ? ? ? ? ? ?];
      world_fields; rewrite ?classAdd_idem, ?classRemove_idem; reflexivity.
  - intros w I V H D. unfold onBlur, closeEditor.
    destruct w as [ie iv ? ? ? ? ? ec dc ? ? ? ? ?]. cbn in I, V, H, D.
    subst ie iv.
    destruct (truthy hideCodeStyle); world_fields;
      rewrite ?(classAdd_present _ _ (H eq_refl)), (classRemove_absent _ _ D);
      reflexivity.
  - intros node w Ed. unfold onFocus, bind, get. now rewrite Ed.
  - intros node w Ed. unfold returns, after.
    destruct (onFocus_world node w Ed) as (w' & R & H1 & H2 & H3 & H4 & H5).
    rewrite R. cbn [fst snd].
    split; [now exists tt|]. now repeat split.
Qed.

(** C5, at the failing input. [onDestroy] detaches the three elements and
    nothing else: after a focus request on an editable view and then
    [onDestroy], the inner view is still there, mounted, and [isEditing] is
    still set. *)
Theorem onDestroy_keeps_session :
  forall (node : Node) (w : World),
    editable w = true ->
    let w' := onDestroy (after (onFocus node) w) in
    previewAttached w' = false /\ editorAttached w' = false /\
    domAttached w' = false /\
    isEditing w' = true /\
    innerView w' = Some (mkView (created w) (EditorState_create node)) /\
    In (created w) (mounted w').
Proof.
  intros node w Ed. cbv zeta. unfold after.
  destruct (onFocus_world node w Ed) as (w' & R & H1 & H2 & H3 & H4 & H5).
  rewrite R. cbn [fst snd]. unfold onDestroy.
  repeat split; try assumption.
  change (In (created w) (mounted w')).
  rewrite H4. apply in_or_app. right. now left.
Qed.

End Properties.

(** * Further properties *)

Section Further.

Context {host : Host}.

Local Abbreviation step := (Step Other).

(** ** What a dispatch leaves alone *)

(** The handler keeps the inner view it finds, with the state of the
    transaction when it takes it. *)
Lemma dispatch_innerView (tr : Transaction) (iv : InnerView) (w : World) :
  innerView w = Some iv -> tr_before tr = doc (state iv) ->
  innerView (after (dispatchTransaction tr) w) = Some (applied tr iv).
Proof.
  intros E B. unfold after.
  destruct (isSet (getMeta "fromOutside" tr)) eqn:T.
  - now rewrite (dispatch_external tr iv w E B T).
  - rewrite (dispatch_local tr iv w E B T). cbv zeta.
    destruct (forwardSteps _ _ _) as [e|otr]; [reflexivity|].
    now destruct (docChanged otr).
Qed.

(** A dispatch changes the state of the inner view, the outer state and the
    trace, and nothing else. *)
Lemma dispatch_frame (tr : Transaction) (w : World) :
  let w' := after (dispatchTransaction tr) w in
  isEditing w' = isEditing w /\ created w' = created w /\
  mounted w' = mounted w /\ focused w' = focused w /\
  editorClasses w' = editorClasses w /\ domClasses w' = domClasses w /\
  match innerView w with
  | Some iv => exists iv', innerView w' = Some iv' /\ view_id iv' = view_id iv
  | None => innerView w' = None
  end.
Proof.
  cbv zeta. unfold after.
  destruct (innerView w) as [iv|] eqn:E.
  - destruct (Node_dec (tr_before tr) (doc (state iv))) as [B|B].
    + destruct (isSet (getMeta "fromOutside" tr)) eqn:T.
      * rewrite (dispatch_external tr iv w E B T). cbn.
        repeat split. now exists (applied tr iv).
      * rewrite (dispatch_local tr iv w E B T). cbv zeta.
        destruct (forwardSteps _ _ _) as [e|otr];
          [|destruct (docChanged otr)]; cbn; repeat split;
          now exists (applied tr iv).
    + rewrite (dispatch_mismatch tr iv w E B). cbn. rewrite E.
      repeat split. now exists iv.
  - rewrite (dispatch_closed tr w E). cbn. now rewrite E.
Qed.

Lemma viewDispatch_frame (tr : Transaction) (w : World) :
  let w' := after (viewDispatch tr) w in
  isEditing w' = isEditing w /\ created w' = created w /\
  mounted w' = mounted w /\ focused w' = focused w /\
  editorClasses w' = editorClasses w /\ domClasses w' = domClasses w /\
  match innerView w with
  | Some iv => exists iv', innerView w' = Some iv' /\ view_id iv' = view_id iv
  | None => innerView w' = None
  end.
Proof.
  cbv zeta. unfold after, viewDispatch, bind, modify.
  exact (dispatch_frame tr (emit (EvInner tr) w)).
Qed.

(** ** The patch in full *)

(** The patch of [reconcile_diff], with the selection it carries: the
    selection of the inner view mapped through the replace step. *)
Lemma reconcile_patch (node : Node) (iv : InnerView) (w : World) (start : Z) :
  innerView w = Some iv ->
  Fragment.findDiffStart (content node) (content (doc (state iv))) = Some start ->
  exists (endA endB endA' endB' : Z) (patch : Transaction),
    Fragment.findDiffEnd (content node) (content (doc (state iv)))
      = Some (endA, endB) /\
    adjustEnds start endA endB = (endA', endB') /\
    0 <= start /\ start <= endA' <= size (content node) /\
    start <= endB' <= size (content (doc (state iv))) /\
    tr_doc patch = mkNode (attrs_value (doc (state iv))) (content node) /\
    tr_steps patch =
      [ReplaceStep start endB' (cut start endA' (content node))] /\
    tr_selection patch =
      Selection_map
        (ReplaceStep_getMap start endB' (cut start endA' (content node)))
        (selection (state iv)) /\
    reconcile node w =
      (inr tt, set_innerView (Some (applied patch iv)) (emit (EvInner patch) w)).
Proof.
  intros E D.
  set (a := content node) in *. set (b := content (doc (state iv))) in *.
  destruct (Fragment.findDiffEnd a b) as [[endA endB]|] eqn:DE.
  2:{ apply findDiffEnd_None in DE. apply findDiffStart_None in DE. congruence. }
  destruct (adjustEnds start endA endB) as [endA' endB'] eqn:A.
  destruct (adjusted_patch a b start endA endB endA' endB' D DE A)
    as (S0 & [SA1 SA2] & [SB1 SB2] & SP).
  assert (NE : a <> b).
  { intros EQ. apply findDiffStart_None in EQ. congruence. }
  assert (R : replace start endB' (cut start endA' a) (newTr (state iv))
              = stepReplace start endB' (cut start endA' a) (newTr (state iv))).
  { unfold replace.
    destruct ((start =? endB') && (size (cut start endA' a) =? 0)) eqn:Z0.
    - exfalso. apply andb_true_iff in Z0 as [Z1 Z2].
      apply Z.eqb_eq in Z1, Z2. subst endB'.
      assert (cut start endA' a = []) as C0.
      { unfold size in Z2. destruct (cut start endA' a); [reflexivity|].
        simpl in Z2. lia. }
      rewrite C0 in SP. simpl in SP. rewrite firstn_skipn in SP.
      congruence.
    - unfold inRange. cbn [newTr tr_doc]. fold b.
      replace ((0 <=? start) && (start <=? size b)
               && ((0 <=? endB') && (endB' <=? size b))) with true;
        [reflexivity|].
      symmetry. rewrite !andb_true_iff, !Z.leb_le. lia. }
  assert (RC : replaceContent start endB' (cut start endA' a) (doc (state iv))
               = Some (mkNode (attrs_value (doc (state iv))) a)).
  { unfold replaceContent. fold b.
    replace ((0 <=? start) && (start <=? endB') && (endB' <=? size b)) with true.
    - now rewrite SP.
    - symmetry. rewrite !andb_true_iff, !Z.leb_le. lia. }
  unfold stepReplace in R. cbn [newTr tr_doc] in R. rewrite RC in R.
  match type of R with _ = inr ?t =>
    exists endA, endB, endA', endB', (setMeta "fromOutside" true t) end.
  repeat split; try assumption.
  unfold reconcile, bind, get. rewrite E. fold a b. rewrite D, DE, A.
  unfold lift. rewrite (slice_in_range start endA' node S0 SA1 SA2).
  fold a. rewrite R.
  unfold viewDispatch, bind, modify.
  erewrite dispatch_external; [reflexivity| exact E | reflexivity | reflexivity].
Qed.

(** [onUpdate] keeps the closure and the views as they are: it leaves the
    world it finds, or the same world with the patched state in the same
    inner view. *)
Lemma onUpdate_frame (node : Node) (isInit : bool) (w : World) :
  let w' := after (onUpdate node isInit) w in
  isEditing w' = isEditing w /\ created w' = created w /\
  mounted w' = mounted w /\ focused w' = focused w /\
  editorClasses w' = editorClasses w /\ domClasses w' = domClasses w /\
  outer w' = outer w /\
  match innerView w with
  | Some iv =>
      exists iv', innerView w' = Some iv' /\ view_id iv' = view_id iv /\
                  attrs_value (doc (state iv')) = attrs_value (doc (state iv))
  | None => innerView w' = None
  end.
Proof.
  cbv zeta. unfold after. destruct isInit.
  - cbn. repeat split. destruct (innerView w) as [iv|]; [|reflexivity].
    now exists iv.
  - rewrite onUpdate_reconciled.
    destruct (reconcile_cases node w)
      as [[R _]|(iv & patch & E & _ & Hd & _ & R)]; rewrite R; cbn.
    + repeat split. destruct (innerView w) as [iv|]; [|reflexivity].
      now exists iv.
    + repeat split. rewrite E. exists (applied patch iv).
      cbn. rewrite Hd. now repeat split.
Qed.

(** X14. Reconciliation patches the live view in place: after [onUpdate]
    with a session open the inner view is the same instance, nothing was
    constructed or unmounted, the flag and the outer state are as before, and
    the [value] attribute of the inner document is the one it had: only its
    content follows the node. *)
Theorem onUpdate_patches_in_place :
  forall (node : Node) (isInit : bool) (iv : InnerView) (w : World),
    innerView w = Some iv ->
    exists iv',
      innerView (after (onUpdate node isInit) w) = Some iv' /\
      view_id iv' = view_id iv /\
      attrs_value (doc (state iv')) = attrs_value (doc (state iv)) /\
      created (after (onUpdate node isInit) w) = created w /\
      mounted (after (onUpdate node isInit) w) = mounted w /\
      isEditing (after (onUpdate node isInit) w) = isEditing w /\
      outer (after (onUpdate node isInit) w) = outer w.
Proof.
  intros node isInit iv w E.
  destruct (onUpdate_frame node isInit w) as (H1 & H2 & H3 & _ & _ & _ & H7 & H8).
  rewrite E in H8. destruct H8 as (iv' & V & I & At).
  exists iv'. now repeat split.
Qed.

(** ** Echoes *)

Lemma onUpdate_same (node : Node) (iv : InnerView) (w : World) :
  innerView w = Some iv ->
  content node = content (doc (state iv)) ->
  onUpdate node false w =
    (inr tt, emit (EvRender (newVal node))
               (set_datasetValue (Some (newVal node)) w)).
Proof.
  intros E C. rewrite onUpdate_reconciled.
  rewrite (reconcile_same node iv w E); [reflexivity|].
  now apply findDiffStart_None.
Qed.

(** X5. The update that comes back after an inner edit is not echoed into
    the inner view. Once the inner view has taken a transaction, forwarded or
    not, [onUpdate] with a node that holds the new inner content only renders:
    nothing is dispatched to either view and the inner state stays. *)
Theorem update_after_inner_edit_is_inert :
  forall (tr : Transaction) (node : Node) (iv : InnerView) (w : World),
    innerView w = Some iv ->
    tr_before tr = doc (state iv) ->
    content node = content (tr_doc tr) ->
    let w' := after (viewDispatch tr) w in
    onUpdate node false w' =
      (inr tt, emit (EvRender (newVal node))
                 (set_datasetValue (Some (newVal node)) w')).
Proof.
  intros tr node iv w E B C w'.
  apply (onUpdate_same node (applied tr iv)); [|exact C].
  unfold w', after, viewDispatch, bind, modify.
  now apply (dispatch_innerView tr iv (emit (EvInner tr) w)).
Qed.

(** X6. Reconciliation is idempotent. A second [onUpdate] with the same node
    finds nothing to patch: it only renders again, whatever the world the
    first one started from. *)
Theorem onUpdate_twice :
  forall (node : Node) (w : World),
    let w1 := after (onUpdate node false) w in
    onUpdate node false w1 =
      (inr tt, emit (EvRender (newVal node))
                 (set_datasetValue (Some (newVal node)) w1)).
Proof.
  intros node w w1. unfold w1, after.
  rewrite (onUpdate_reconciled node w).
  destruct (reconcile_cases node w)
    as [[R Same]|(iv & patch & E & _ & Hd & _ & R)]; rewrite R; cbn [snd].
  - destruct (innerView w) as [iv|] eqn:E.
    + apply (onUpdate_same node iv); [exact E|].
      symmetry. now apply Same.
    + rewrite onUpdate_reconciled.
      now rewrite reconcile_closed.
  - apply (onUpdate_same node (applied patch iv)); [reflexivity|].
    cbn. now rewrite Hd.
Qed.

(** ** Minimal patches *)

(** The scan goes past every common prefix. *)
Lemma diffStartText_max (a b : text) :
  forall (pos : Z) (m : nat),
    (m <= List.length a)%nat -> (m <= List.length b)%nat ->
    firstn m a = firstn m b ->
    pos + Z.of_nat m <= Fragment.diffStartText a b pos.
Proof.
  revert b; induction a as [|x a IH]; intros b pos m La Lb F.
  - simpl in La. assert (m = 0)%nat by lia. subst m. simpl. lia.
  - destruct b as [|y b].
    + simpl in Lb. assert (m = 0)%nat by lia. subst m. simpl. lia.
    + destruct m as [|m]; simpl.
      * destruct (ascii_dec x y); [|lia].
        specialize (IH b (pos + 1) 0%nat). simpl in IH.
        assert (pos + 1 + 0 <= Fragment.diffStartText a b (pos + 1))
          by (apply IH; [lia|lia|reflexivity]).
        lia.
      * simpl in La, Lb, F. injection F as -> F.
        destruct (ascii_dec y y); [|contradiction].
        specialize (IH b (pos + 1) m). 
        assert (pos + 1 + Z.of_nat m <= Fragment.diffStartText a b (pos + 1))
          by (apply IH; [lia|lia|exact F]).
        lia.
Qed.

(** Where the two scans stop, with the suffix they share: the start is past
    every common prefix and the ends are before every common suffix. *)
Lemma diff_extent (a b : text) (start endA endB : Z) :
  Fragment.findDiffStart a b = Some start ->
  Fragment.findDiffEnd a b = Some (endA, endB) ->
  0 <= start <= Z.min (size a) (size b) /\
  endA - endB = size a - size b /\
  0 <= endA <= size a /\ 0 <= endB <= size b /\
  (forall m : nat,
     (m <= List.length a)%nat -> (m <= List.length b)%nat ->
     firstn m a = firstn m b -> Z.of_nat m <= start) /\
  (forall m : nat,
     (m <= List.length a)%nat -> (m <= List.length b)%nat ->
     firstn m (rev a) = firstn m (rev b) -> Z.of_nat m <= size a - endA).
Proof.
  intros Hs He.
  destruct (diff_bounds a b start endA endB Hs He)
    as (p & s & Ep & EA & EB & Pa & Pb & Sa & Sb & _ & _).
  unfold size in *.
  split; [lia|]. split; [lia|]. split; [lia|]. split; [lia|].
  unfold Fragment.findDiffStart, Fragment.findDiffEnd in Hs, He.
  destruct a as [|x a], b as [|y b]; try discriminate.
  - split; intros m La Lb _; simpl in La; lia.
  - split; intros m La Lb _; simpl in Lb; lia.
  - destruct (text_eqb (x :: a) (y :: b)); try discriminate.
    unfold Fragment.sameSuffix in He.
    assert (Es : start = Fragment.diffStartText (x :: a) (y :: b) 0)
      by congruence.
    assert (Ee : endA = Z.of_nat (List.length (x :: a))
                        - Fragment.diffStartText (rev (x :: a)) (rev (y :: b)) 0).
    { unfold size in He. congruence. }
    split; intros m La Lb F.
    + pose proof (diffStartText_max (x :: a) (y :: b) 0 m La Lb F). lia.
    + assert (0 + Z.of_nat m
              <= Fragment.diffStartText (rev (x :: a)) (rev (y :: b)) 0).
      { apply diffStartText_max; rewrite ?length_rev; assumption. }
      lia.
Qed.

Lemma size_app (a b : text) : size (a ++ b) = size a + size b.
Proof. unfold size. rewrite length_app. lia. Qed.

Lemma size_cut (from to : Z) (t : text) :
  0 <= from -> from <= to -> to <= size t -> size (cut from to t) = to - from.
Proof.
  intros F T S. unfold size in *. unfold cut.
  rewrite length_firstn, length_skipn. lia.
Qed.

Lemma firstn_length_app {A} (l l' : list A) :
  firstn (List.length l) (l ++ l') = l.
Proof.
  rewrite firstn_app, Nat.sub_diag, firstn_all. simpl. apply app_nil_r.
Qed.

(** With one text the other plus an inserted run, the adjusted range is
    empty on the short side and as long as the run on the long side. *)
Lemma adjustEnds_inserted (long short pre ins post : text)
    (start endL endS : Z) :
  long = pre ++ ins ++ post -> short = pre ++ post -> ins <> [] ->
  (Fragment.findDiffStart long short = Some start /\
   Fragment.findDiffEnd long short = Some (endL, endS) ->
   adjustEnds start endL endS = (start + size ins, start)) /\
  (Fragment.findDiffStart short long = Some start /\
   Fragment.findDiffEnd short long = Some (endS, endL) ->
   adjustEnds start endS endL = (start, start + size ins)).
Proof.
  intros EL ES NI.
  assert (K : 0 < size ins).
  { unfold size. destruct ins; [contradiction|simpl; lia]. }
  assert (SL : size long = size pre + size ins + size post)
    by (subst long; rewrite !size_app; lia).
  assert (SS : size short = size pre + size post)
    by (subst short; rewrite size_app; lia).
  assert (P : firstn (List.length pre) long = firstn (List.length pre) short).
  { subst. now rewrite !firstn_length_app. }
  assert (Q : firstn (List.length post) (rev long)
              = firstn (List.length post) (rev short)).
  { subst. rewrite !rev_app_distr, <- !app_assoc.
    rewrite <- (length_rev post). now rewrite !firstn_length_app. }
  assert (Lp : (List.length pre <= List.length long)%nat
               /\ (List.length pre <= List.length short)%nat
               /\ (List.length post <= List.length long)%nat
               /\ (List.length post <= List.length short)%nat).
  { unfold size in *. subst. rewrite !length_app. lia. }
  destruct Lp as (L1 & L2 & L3 & L4).
  split; intros [Hs He].
  - destruct (diff_extent long short start endL endS Hs He)
      as (B1 & B2 & B3 & B4 & Mp & Ms).
    specialize (Mp _ L1 L2 P). specialize (Ms _ L3 L4 Q).
    fold (size pre) in Mp. fold (size post) in Ms.
    unfold adjustEnds.
    destruct (Z.ltb_spec 0 (start - Z.min endL endS)); f_equal; lia.
  - destruct (diff_extent short long start endS endL Hs He)
      as (B1 & B2 & B3 & B4 & Mp & Ms).
    symmetry in P, Q.
    specialize (Mp _ L2 L1 P). specialize (Ms _ L4 L3 Q).
    fold (size pre) in Mp. fold (size post) in Ms.
    unfold adjustEnds.
    destruct (Z.ltb_spec 0 (start - Z.min endS endL)); f_equal; lia.
Qed.

(** X7. A pure insertion gives a minimal patch. When the node holds the
    inner text with one run inserted, the patch that [onUpdate] dispatches
    is a single step that replaces an empty range of the inner document by
    as many characters as were inserted. *)
Theorem insertion_patch_is_minimal :
  forall (node : Node) (iv : InnerView) (w : World) (pre ins post : text),
    innerView w = Some iv ->
    content (doc (state iv)) = pre ++ post ->
    content node = pre ++ ins ++ post ->
    ins <> [] ->
    exists (start : Z) (inserted : text) (patch : Transaction),
      tr_steps patch = [ReplaceStep start start inserted] /\
      size inserted = size ins /\
      size pre <= start <= size pre + size post /\
      trace (after (onUpdate node false) w)
        = trace w ++ [EvInner patch; EvRender (newVal node)].
Proof.
  intros node iv w pre ins post E Cb Ca NI.
  assert (K : 0 < size ins).
  { unfold size. destruct ins; [contradiction|simpl; lia]. }
  destruct (Fragment.findDiffStart (content node) (content (doc (state iv))))
    as [start|] eqn:D.
  2:{ apply findDiffStart_None in D. rewrite Ca, Cb in D.
      apply (f_equal size) in D. rewrite !size_app in D. lia. }
  destruct (reconcile_patch node iv w start E D)
    as (endA & endB & endA' & endB' & patch & DE & A & S0 & SA & SB
        & _ & Hs & _ & R).
  destruct (adjustEnds_inserted _ _ pre ins post start endA endB Ca Cb NI)
    as [Adj _].
  rewrite (Adj (conj D DE)) in A. injection A as <- <-.
  destruct (diff_extent _ _ start endA endB D DE) as (B1 & _ & _ & _ & Mp & _).
  assert (P : Z.of_nat (List.length pre) <= start).
  { apply Mp.
    - rewrite Ca, length_app. lia.
    - rewrite Cb, length_app. lia.
    - rewrite Ca, Cb. now rewrite !firstn_length_app. }
  exists start, (cut start (start + size ins) (content node)), patch.
  split; [exact Hs|]. split.
  - rewrite size_cut by lia. lia.
  - split.
    + rewrite Cb, size_app in SB. fold (size pre) in P. lia.
    + unfold after. rewrite onUpdate_reconciled, R. cbn.
      now rewrite <- app_assoc.
Qed.

(** X8. A pure deletion gives a minimal patch. When the inner document holds
    the text of the node with one run more, the patch is a single step that
    replaces a range as long as that run by nothing. *)
Theorem deletion_patch_is_minimal :
  forall (node : Node) (iv : InnerView) (w : World) (pre del post : text),
    innerView w = Some iv ->
    content (doc (state iv)) = pre ++ del ++ post ->
    content node = pre ++ post ->
    del <> [] ->
    exists (start : Z) (patch : Transaction),
      tr_steps patch = [ReplaceStep start (start + size del) []] /\
      size pre <= start <= size pre + size post /\
      trace (after (onUpdate node false) w)
        = trace w ++ [EvInner patch; EvRender (newVal node)].
Proof.
  intros node iv w pre del post E Cb Ca NI.
  assert (K : 0 < size del).
  { unfold size. destruct del; [contradiction|simpl; lia]. }
  destruct (Fragment.findDiffStart (content node) (content (doc (state iv))))
    as [start|] eqn:D.
  2:{ apply findDiffStart_None in D. rewrite Ca, Cb in D.
      apply (f_equal size) in D. rewrite !size_app in D. lia. }
  destruct (reconcile_patch node iv w start E D)
    as (endA & endB & endA' & endB' & patch & DE & A & S0 & SA & SB
        & _ & Hs & _ & R).
  destruct (adjustEnds_inserted _ _ pre del post start endB endA Cb Ca NI)
    as [_ Adj].
  rewrite (Adj (conj D DE)) in A. injection A as <- <-.
  destruct (diff_extent _ _ start endA endB D DE) as (B1 & _ & _ & _ & Mp & _).
  assert (P : Z.of_nat (List.length pre) <= start).
  { apply Mp.
    - rewrite Ca, length_app. lia.
    - rewrite Cb, length_app. lia.
    - rewrite Ca, Cb. now rewrite !firstn_length_app. }
  exists start, patch.
  split.
  - rewrite Hs. unfold cut. now rewrite Z.sub_diag.
  - split.
    + rewrite Ca, size_app in SA. fold (size pre) in P. lia.
    + unfold after. rewrite onUpdate_reconciled, R. cbn.
      now rewrite <- app_assoc.
Qed.

(** ** The cursor under a patch *)

Lemma map_before (start oldSize newSize pos : Z) :
  pos < start -> StepMap.map [(start, oldSize, newSize)] pos 1 = pos.
Proof.
  intros L. unfold StepMap.map, StepMap.mapResult. cbn [StepMap.mapFrom].
  destruct (Z.ltb_spec pos start); [cbn; lia|lia].
Qed.

Lemma map_after (start oldSize newSize pos : Z) :
  start + oldSize < pos ->  0 <= oldSize ->
  StepMap.map [(start, oldSize, newSize)] pos 1 = pos + (newSize - oldSize).
Proof.
  intros L O. unfold StepMap.map, StepMap.mapResult. cbn [StepMap.mapFrom].
  destruct (Z.ltb_spec pos start); [lia|].
  destruct (Z.leb_spec pos (start + oldSize)); [lia|].
  cbn. lia.
Qed.

(** X9. A patch keeps the cursor where the user has it. With a session
    open and a diff found, a selection that lies before the start of the
    diff is unchanged by [onUpdate], and a selection that lies after the
    replaced range moves by the difference in length between the outer and
    the inner content. *)
Theorem patch_keeps_cursor :
  forall (node : Node) (iv : InnerView) (w : World) (start endA endB : Z),
    innerView w = Some iv ->
    Fragment.findDiffStart (content node) (content (doc (state iv)))
      = Some start ->
    Fragment.findDiffEnd (content node) (content (doc (state iv)))
      = Some (endA, endB) ->
    exists iv',
      innerView (after (onUpdate node false) w) = Some iv' /\
      (anchor (selection (state iv)) < start ->
       head (selection (state iv)) < start ->
       selection (state iv') = selection (state iv)) /\
      (snd (adjustEnds start endA endB) < anchor (selection (state iv)) ->
       snd (adjustEnds start endA endB) < head (selection (state iv)) ->
       let delta := size (content node) - size (content (doc (state iv))) in
       selection (state iv')
       = mkSelection (anchor (selection (state iv)) + delta)
                     (head (selection (state iv)) + delta)).
Proof.
  intros node iv w start endA endB E D DE.
  destruct (reconcile_patch node iv w start E D)
    as (endA0 & endB0 & endA' & endB' & patch & DE0 & A & S0 & SA & SB
        & _ & _ & Hsel & R).
  rewrite DE in DE0. injection DE0 as <- <-.
  exists (applied patch iv). split.
  - unfold after. now rewrite onUpdate_reconciled, R.
  - cbn [applied updateState state selection]. rewrite Hsel.
    unfold Selection_map, ReplaceStep_getMap.
    destruct (selection (state iv)) as [an hd]. cbn [anchor head].
    rewrite A. cbn [snd]. split.
    + intros La Lh. now rewrite !map_before.
    + intros La Lh.
      destruct (diff_extent _ _ start endA endB D DE) as (_ & B2 & _).
      assert (EE : endA' - endB' = endA - endB).
      { unfold adjustEnds in A.
        destruct (0 <? start - Z.min endA endB); injection A as <- <-; lia. }
      rewrite !map_after by lia.
      rewrite size_cut by lia. cbv zeta. f_equal; lia.
Qed.

(** ** Errors and late calls *)

Lemma forwardSteps_refused (om : StepMap.t) (pre post : list step)
    (s mapped : step) (otr otr' : OuterTr) :
  forwardSteps om pre otr = inr otr' ->
  Step_map om s = Some mapped ->
  applyOuter mapped (otr_state otr') = None ->
  forwardSteps om (pre ++ s :: post) otr = inl TransformError.
Proof.
  revert otr; induction pre as [|x pre IH]; intros otr F M A.
  - cbn [forwardSteps] in F. injection F as <-.
    cbn [app forwardSteps]. rewrite M. unfold outerStep. now rewrite A.
  - cbn [app forwardSteps] in *.
    destruct (Step_map om x); [|discriminate].
    destruct (outerStep s0 otr); [discriminate|]. now apply IH.
Qed.

(** X10. A mapped step that the outer document does not take is fatal too.
    When the forwarding reaches a step that maps but does not apply to the
    outer transaction, the handler throws, with the error of [outerTr.step]
    and not with [Error('step discarded!')]; the steps already added are
    dropped with the transaction: nothing is dispatched, the outer state is as
    before, and the inner view keeps the edit. *)
Theorem refused_step_is_fatal :
  forall (tr : Transaction) (iv : InnerView) (w : World)
         (pre post : list step) (s mapped : step) (outerTr : OuterTr),
    innerView w = Some iv ->
    tr_before tr = doc (state iv) ->
    isSet (getMeta "fromOutside" tr) = false ->
    tr_steps tr = pre ++ s :: post ->
    forwardSteps (StepMap.offset (getPos (outer w) + 1)) pre
      (newOuterTr (outer w)) = inr outerTr ->
    Step_map (StepMap.offset (getPos (outer w) + 1)) s = Some mapped ->
    applyOuter mapped (otr_state outerTr) = None ->
    (exists e, throws (dispatchTransaction tr) e w /\ e <> StepDiscarded) /\
    outer (after (dispatchTransaction tr) w) = outer w /\
    trace (after (dispatchTransaction tr) w) = trace w /\
    innerView (after (dispatchTransaction tr) w) = Some (applied tr iv).
Proof.
  intros tr iv w pre post s mapped otr E B T S F M A.
  unfold throws, after.
  rewrite (dispatch_local tr iv w E B T). cbv zeta.
  rewrite S, (forwardSteps_refused _ pre post s mapped _ otr F M A).
  split; [|now repeat split].
  exists TransformError. split; [reflexivity|discriminate].
Qed.

(** X11. A transaction that arrives after the session is closed is dropped.
    After [onBlur] the handler returns without applying or forwarding
    anything, whatever the transaction. *)
Theorem late_dispatch_is_dropped :
  forall (tr : Transaction) (w : World),
    dispatchTransaction tr (onBlur w) = (inr tt, onBlur w).
Proof.
  intros tr w. apply dispatch_closed.
  unfold onBlur, closeEditor. reflexivity.
Qed.

(** ** Focus and blur, field by field *)

Ltac fields :=
  cbv beta iota zeta delta
    [destroy emit set_attached set_datasetValue set_domClasses
     set_editorClasses set_focused set_mounted set_created set_outer
     set_innerView set_isEditing
     isEditing innerView outer editable created mounted focused
     editorClasses domClasses datasetValue previewAttached editorAttached
     domAttached trace].

Lemma classAdd_in (c : string) (l : list string) : In c (classAdd c l).
Proof.
  unfold classAdd. destruct (in_dec string_dec c l); [assumption|].
  apply in_or_app. right. now left.
Qed.

Lemma onFocus_fields (node : Node) (w : World) :
  editable w = true ->
  exists w',
    onFocus node w = (inr tt, w') /\
    isEditing w' = true /\
    innerView w' = Some (mkView (created w) (EditorState_create node)) /\
    created w' = S (created w) /\
    mounted w' = mounted w ++ [created w] /\
    focused w' = Some (created w) /\
    outer w' = outer w /\
    editorClasses w' =
      (if truthy hideCodeStyle
       then classRemove hideCodeStyle (editorClasses w)
       else editorClasses w) /\
    domClasses w' = classAdd "ProseMirror-selectednode" (domClasses w).
Proof.
  intros Ed. unfold onFocus, bind, get. rewrite Ed. cbn [negb].
  destruct (truthy hideCodeStyle); unfold modify, ret;
    match goal with
    | |- context [openEditor node ?w0] =>
        destruct (openEditor_world node w0)
          as (w' & R & H1 & H2 & H3 & H4 & H5 & H6 & _ & H8 & H9 & _)
    end;
    rewrite R; eexists; (split; [reflexivity|]); cbn in *;
    rewrite ?H8, ?H9; now repeat split.
Qed.

Lemma onBlur_fields (w : World) :
  isEditing (onBlur w) = false /\
  innerView (onBlur w) = None /\
  created (onBlur w) = created w /\
  outer (onBlur w) = outer w /\
  mounted (onBlur w) =
    match innerView w with
    | Some iv => filter (fun i => negb (Nat.eqb i (view_id iv))) (mounted w)
    | None => mounted w
    end /\
  editorClasses (onBlur w) =
    (if truthy hideCodeStyle
     then classAdd hideCodeStyle (editorClasses w)
     else editorClasses w) /\
  domClasses (onBlur w) = classRemove "ProseMirror-selectednode" (domClasses w).
Proof.
  unfold onBlur, closeEditor.
  destruct w as [ie [iv|] ? ? ? ? ? ? ? ? ? ? ? ?];
    destruct (truthy hideCodeStyle); fields; now repeat split.
Qed.

(** X12. The editor element is shown between focus and blur. A focus
    request on an editable view takes the hiding class off the editor
    element and marks the node as selected; a blur puts the hiding class back
    and takes the mark off. *)
Theorem editor_shown_while_focused :
  truthy hideCodeStyle = true ->
  (forall (node : Node) (w : World),
     editable w = true ->
     ~ In hideCodeStyle (editorClasses (after (onFocus node) w)) /\
     In "ProseMirror-selectednode"%string
        (domClasses (after (onFocus node) w))) /\
  (forall w : World,
     In hideCodeStyle (editorClasses (onBlur w)) /\
     ~ In "ProseMirror-selectednode"%string (domClasses (onBlur w))).
Proof.
  intros T. split.
  - intros node w Ed. unfold after.
    destruct (onFocus_fields node w Ed)
      as (w' & R & _ & _ & _ & _ & _ & _ & Hc & Hd).
    rewrite R. cbn [snd]. rewrite Hc, Hd, T. split.
    + apply classRemove_gone.
    + apply classAdd_in.
  - intros w.
    destruct (onBlur_fields w) as (_ & _ & _ & _ & _ & Hc & Hd).
    rewrite Hc, Hd, T. split.
    + apply classAdd_in.
    + apply classRemove_gone.
Qed.

(** X3. Which events the inner editor keeps for itself. After a blur no
    event is stopped. After a focus request on an editable view the events
    whose target lies in the view just constructed are stopped, and no
    others: not those of another view, of another element, or without a
    target. *)
Theorem stopEvent_follows_session :
  (forall (target : option Target) (w : World),
     stopEvent target (onBlur w) = false) /\
  (forall (node : Node) (w : World) (target : option Target),
     editable w = true ->
     stopEvent target (after (onFocus node) w) = true
     <-> target = Some (InView (created w))).
Proof.
  split.
  - intros target w. unfold stopEvent.
    destruct (onBlur_fields w) as (_ & V & _). now rewrite V.
  - intros node w target Ed. unfold after.
    destruct (onFocus_fields node w Ed) as (w' & R & _ & V & _).
    rewrite R. cbn [snd]. unfold stopEvent. rewrite V.
    destruct target as [[i|]|]; cbn.
    + destruct (Nat.eqb_spec i (created w)) as [->|N]; split; try reflexivity.
      * discriminate.
      * intros [= ->]. contradiction.
    + split; discriminate.
    + split; discriminate.
Qed.

(** ** The Tab key *)



(** ** Invariants over sequences of calls *)

(** A call that keeps the flag, the counter, the mounted views and the
    identity of the inner view keeps both invariants. *)
Lemma consistent_frame (w w' : World) :
  isEditing w' = isEditing w -> created w' = created w ->
  mounted w' = mounted w ->
  match innerView w with
  | Some iv => exists iv', innerView w' = Some iv' /\ view_id iv' = view_id iv
  | None => innerView w' = None
  end ->
  consistent w -> consistent w'.
Proof.
  intros H1 H2 H3 H4 (C1 & C2 & C3 & C4). unfold consistent.
  rewrite H1, H2, H3.
  destruct (innerView w) as [iv|].
  - destruct H4 as (iv' & V & I). rewrite V.
    repeat split; auto; intros iv0 [= <-]; rewrite I; now apply C2.
  - rewrite H4. repeat split; auto; discriminate.
Qed.

Lemma single_frame (w w' : World) :
  mounted w' = mounted w ->
  match innerView w with
  | Some iv => exists iv', innerView w' = Some iv' /\ view_id iv' = view_id iv
  | None => innerView w' = None
  end ->
  single w -> single w'.
Proof.
  intros H3 H4 S. unfold single in *. rewrite H3, S.
  destruct (innerView w) as [iv|].
  - destruct H4 as (iv' & V & I). now rewrite V, I.
  - now rewrite H4.
Qed.

Lemma keyTab_after (st : EditorState) (w : World) :
  after (keyTab st (Some viewDispatch)) w = w \/
  exists tr, after (keyTab st (Some viewDispatch)) w = after (viewDispatch tr) w.
Proof.
  unfold after, keyTab, bind, lift.
  destruct (insertText tab (newTr st)) as [e|tr]; [now left|].
  right. exists tr. destruct (viewDispatch tr w) as [[e|[]] w']; reflexivity.
Qed.

(** What each call keeps, unless it is a focus request or a blur. *)
Lemma perform_frame (c : Call) (w : World) :
  match c with
  | CallFocus _ => editable w = false
  | CallBlur => False
  | _ => True
  end ->
  isEditing (perform c w) = isEditing w /\
  created (perform c w) = created w /\
  mounted (perform c w) = mounted w /\
  match innerView w with
  | Some iv =>
      exists iv', innerView (perform c w) = Some iv' /\ view_id iv' = view_id iv
  | None => innerView (perform c w) = None
  end.
Proof.
  assert (Id : forall w0 : World,
             match innerView w0 with
             | Some iv => exists iv', innerView w0 = Some iv' /\ view_id iv' = view_id iv
             | None => innerView w0 = None
             end).
  { intros w0. destruct (innerView w0) as [iv|]; [now exists iv|reflexivity]. }
  destruct c as [node| |node isInit| |tr|]; intros H; cbn [perform].
  - unfold after, onFocus, bind, get. rewrite H. cbn. repeat split. apply Id.
  - contradiction.
  - destruct (onUpdate_frame node isInit w) as (H1 & H2 & H3 & _ & _ & _ & _ & H8).
    repeat split; auto.
    destruct (innerView w) as [iv|]; [|exact H8].
    destruct H8 as (iv' & V & I & _). now exists iv'.
  - unfold onDestroy. cbn. repeat split. apply Id.
  - destruct (viewDispatch_frame tr w) as (H1 & H2 & H3 & _ & _ & _ & H7).
    now repeat split.
  - destruct (innerView w) as [iv|] eqn:E.
    + destruct (keyTab_after (state iv) w) as [->|[tr ->]].
      * rewrite E. repeat split. now exists iv.
      * destruct (viewDispatch_frame tr w) as (H1 & H2 & H3 & _ & _ & _ & H7).
        rewrite E in H7. now repeat split.
    + now repeat split.
Qed.

Lemma Forall_lt_fresh (n : nat) (l : list nat) :
  Forall (fun i => (i < n)%nat) l -> ~ In n l.
Proof.
  intros F I. rewrite Forall_forall in F. specialize (F n I). lia.
Qed.

Lemma perform_consistent (c : Call) (w : World) :
  consistent w -> consistent (perform c w).
Proof.
  intros C.
  destruct c as [node| |node isInit| |tr|];
    try (match goal with
         | |- consistent (perform ?c _) =>
             destruct (perform_frame c w I) as (H1 & H2 & H3 & H4)
         end;
         now apply (consistent_frame w _ H1 H2 H3 H4)).
  - destruct (editable w) eqn:Ed.
    + cbn [perform]. unfold after.
      destruct (onFocus_fields node w Ed)
        as (w' & R & H1 & H2 & H3 & H4 & _).
      rewrite R. cbn [snd].
      destruct C as (_ & _ & C3 & C4). unfold consistent.
      rewrite H1, H2, H3, H4. repeat split.
      * intros iv [= <-]. cbn. apply in_or_app. right. now left.
      * apply Forall_app. split.
        -- eapply Forall_impl; [|exact C3]. cbn. intros; lia.
        -- constructor; [lia|constructor].
      * apply NoDup_app; [exact C4|repeat constructor; intros []|].
        intros x Ix [<-|[]]. now apply (Forall_lt_fresh _ _ C3).
    + destruct (perform_frame (CallFocus node) w Ed) as (H1 & H2 & H3 & H4).
      now apply (consistent_frame w _ H1 H2 H3 H4).
  - cbn [perform].
    destruct (onBlur_fields w) as (H1 & H2 & H3 & _ & H5 & _).
    destruct C as (_ & _ & C3 & C4). unfold consistent.
    rewrite H1, H2, H3, H5. repeat split; [discriminate| |].
    + destruct (innerView w); [|exact C3].
      apply Forall_forall. intros x Ix. apply filter_In in Ix as [Ix _].
      rewrite Forall_forall in C3. now apply C3.
    + destruct (innerView w); [|exact C4]. now apply NoDup_filter.
Qed.

(** X1. The closure stays consistent. Whatever the host and the user do, in
    whatever order (focus, blur, update, destroy, transactions, the Tab
    key), after each call [isEditing()] is true exactly when there is an
    inner view, that view is mounted, and the mounted views are distinct
    views among those constructed. *)
Theorem closure_stays_consistent :
  forall (cs : list Call) (o : OuterState) (isEditable : bool),
    consistent (run cs (initial o isEditable)).
Proof.
  intros cs o e.
  assert (C0 : consistent (initial o e)).
  { unfold consistent, initial. cbn. repeat split.
    - discriminate.
    - constructor.
    - constructor. }
  revert C0. generalize (initial o e). unfold run.
  induction cs as [|c cs IH]; intros w C; [exact C|].
  cbn [fold_left]. apply IH. now apply perform_consistent.
Qed.

Lemma perform_single (c : Call) (w : World) :
  match c with CallFocus _ => idle w = true | _ => True end ->
  single w -> single (perform c w).
Proof.
  intros A S.
  destruct c as [node| |node isInit| |tr|];
    try (match goal with
         | |- single (perform ?c _) =>
             destruct (perform_frame c w I) as (_ & _ & H3 & H4)
         end;
         now apply (single_frame w _ H3 H4)).
  - destruct (editable w) eqn:Ed.
    + cbn [perform]. unfold after.
      destruct (onFocus_fields node w Ed) as (w' & R & _ & H2 & _ & H4 & _).
      rewrite R. cbn [snd]. unfold single in *. rewrite H2, H4, S.
      unfold idle in A. now destruct (innerView w).
    + destruct (perform_frame (CallFocus node) w Ed) as (_ & _ & H3 & H4).
      now apply (single_frame w _ H3 H4).
  - cbn [perform].
    destruct (onBlur_fields w) as (_ & H2 & _ & _ & H5 & _).
    unfold single in *. rewrite H2, H5, S.
    destruct (innerView w) as [iv|]; [|reflexivity].
    cbn. now rewrite Nat.eqb_refl.
Qed.

(** X2. No view is left behind when focus and blur alternate. In a sequence
    of calls where every focus request finds the renderer idle, the only
    view mounted at any time is the inner view of the open session, and none
    when there is no session; so after a blur nothing is mounted. *)
Theorem disciplined_host_leaks_no_view :
  forall (cs : list Call) (o : OuterState) (isEditable : bool),
    disciplined cs (initial o isEditable) ->
    single (run cs (initial o isEditable)) /\
    mounted (onBlur (run cs (initial o isEditable))) = [].
Proof.
  intros cs o e D.
  assert (S : single (run cs (initial o e))).
  { assert (S0 : single (initial o e)) by reflexivity.
    revert S0 D. generalize (initial o e). unfold run.
    induction cs as [|c cs IH]; intros w S D; [exact S|].
    cbn [fold_left]. destruct D as [A D].
    apply IH; [|exact D]. now apply perform_single. }
  split; [exact S|].
  pose proof (perform_single CallBlur _ I S) as SB. cbn [perform] in SB.
  unfold single in SB.
  destruct (onBlur_fields (run cs (initial o e))) as (_ & V & _).
  now rewrite V in SB.
Qed.

(** ** What reaches the outer view *)

Lemma onBlur_outward (w : World) :
  outer (onBlur w) = outer w /\ trace (onBlur w) = trace w.
Proof.
  unfold onBlur, closeEditor.
  destruct w as [ie [iv|] ? ? ? ? ? ? ? ? ? ? ? ?];
    destruct (truthy hideCodeStyle); fields; now split.
Qed.

(** X15. Only inner edits reach the outer view. A focus request, a blur, an
    update and a destroy leave the outer state as it is and dispatch nothing
    to the outer view: every outer dispatch in the trace after the call was
    in the trace before it. *)
Theorem callbacks_dispatch_nothing_outward :
  forall (c : Call) (w : World) (outerTr : OuterTr),
    match c with
    | CallDispatch _ | CallTab => False
    | _ => True
    end ->
    outer (perform c w) = outer w /\
    (In (EvOuter outerTr) (trace (perform c w)) ->
     In (EvOuter outerTr) (trace w)).
Proof.
  intros c w otr H.
  destruct c as [node| |node isInit| |tr|]; try contradiction; cbn [perform].
  - destruct (editable w) eqn:Ed.
    + unfold after, onFocus, bind, get. rewrite Ed. cbn [negb].
      destruct (truthy hideCodeStyle); unfold modify, ret;
        match goal with
        | |- context [openEditor node ?w0] =>
            destruct (openEditor_world node w0)
              as (w' & R & _ & _ & _ & _ & _ & H6 & _ & _ & _ & Ht)
        end;
        rewrite R; cbn in *; (split; [exact H6|]);
        intros I; destruct (Ht _ I) as [I'|[tr E]];
        (exact I' || discriminate E).
    + unfold after, onFocus, bind, get. rewrite Ed. cbn. now split.
  - destruct (onBlur_outward w) as [O T]. rewrite O, T. now split.
  - unfold after. destruct isInit.
    + cbn. split; [reflexivity|].
      intros I. apply in_app_or in I as [I|[E|[]]]; [exact I|discriminate E].
    + rewrite onUpdate_reconciled.
      destruct (reconcile_cases node w)
        as [[R _]|(iv & patch & _ & _ & _ & _ & R)]; rewrite R; cbn.
      * split; [reflexivity|].
        intros I. apply in_app_or in I as [I|[E|[]]]; [exact I|discriminate E].
      * split; [reflexivity|].
        intros I. apply in_app_or in I as [I|[E|[]]]; [|discriminate E].
        apply in_app_or in I as [I|[E|[]]]; [exact I|discriminate E].
  - unfold onDestroy. cbn. now split.
Qed.

End Further.

(** ** The properties on the sample host *)

#[local] Existing Instance Sample.host.

Lemma loop_freedom_witness :
  insertText (txt "+1") (newTr (mkState Sample.node (mkSelection 5 5)))
    = inr Cases.typed /\
  isSet (getMeta "fromOutside" Cases.typedEcho) = true /\
  (outer (after (dispatchTransaction Cases.typedEcho) Sample.atEnd)
     = outer Sample.atEnd /\
   trace (after (dispatchTransaction Cases.typedEcho) Sample.atEnd)
     = trace Sample.atEnd) /\
  outer (after (dispatchTransaction Cases.typed) Sample.atEnd)
    <> outer Sample.atEnd /\
  (outer (after (onUpdate Sample.aaaa false) Sample.aaa) = outer Sample.aaa /\
   exists added,
     trace (after (onUpdate Sample.aaaa false) Sample.aaa)
       = trace Sample.aaa ++ added /\
     Forall (fun e => match e with
                      | EvOuter _ => False
                      | EvInner patch =>
                          isSet (getMeta "fromOutside" patch) = true
                      | EvRender _ => True
                      end) added).
Proof.
  split; [reflexivity|]. split; [reflexivity|]. split; [|split].
  - apply (proj1 (@loop_freedom Sample.host) Cases.typedEcho Sample.atEnd).
    reflexivity.
  - intros H. apply (f_equal Sample.hosted) in H. vm_compute in H.
    discriminate H.
  - exact (proj2 (@loop_freedom Sample.host) Sample.aaaa false Sample.aaa).
Defined.

Lemma overlap_correctness_witness :
  3 > Z.min 1 0 /\
  adjustEnds 3 1 0 = (1 + (3 - Z.min 1 0), 0 + (3 - Z.min 1 0)) /\
  returns (onUpdate Sample.aaaa false) Sample.aaa /\
  (exists iv',
     innerView (after (onUpdate Sample.aaaa false) Sample.aaa) = Some iv' /\
     content (doc (state iv')) = txt "aaaa") /\
  (exists patch,
     In (EvInner patch) (trace (after (onUpdate Sample.aaaa false) Sample.aaa)) /\
     tr_steps patch = [ReplaceStep 3 3 (txt "a")]).
Proof.
  split; [lia|].
  split; [apply (proj1 (@overlap_correctness Sample.host)); lia|].
  destruct (proj2 (@overlap_correctness Sample.host) Sample.aaaa
              (mkView 0 (mkState (mkNode (txt "") (txt "aaa")) (mkSelection 0 0)))
              Sample.aaa eq_refl) as (R & X & P).
  split; [exact R|]. split; [exact X|].
  destruct (P 3 1 0 4 3 eq_refl eq_refl eq_refl) as (patch & I & S & _).
  exists patch. split; [exact I|exact S].
Defined.

Lemma step_mapping_failure_is_fatal_witness :
  Step_map (StepMap.offset (getPos (outer Sample.editing) + 1))
    (OtherStep (Sample.mkMark 0 0)) = None /\
  throws (dispatchTransaction Sample.markNothing) StepDiscarded Sample.editing /\
  outer (after (dispatchTransaction Sample.markNothing) Sample.editing)
    = outer Sample.editing /\
  trace (after (dispatchTransaction Sample.markNothing) Sample.editing)
    = trace Sample.editing.
Proof.
  split; [reflexivity|].
  apply (@step_mapping_failure_is_fatal Sample.host Sample.markNothing
           (mkView 0 (EditorState_create Sample.node)) Sample.editing
           [] [] (OtherStep (Sample.mkMark 0 0))
           (newOuterTr (outer Sample.editing)));
    reflexivity.
Defined.

Lemma failed_forwarding_keeps_inner_edit_witness :
  (exists iv',
     innerView (after (dispatchTransaction Cases.typedThenMark) Sample.atEnd)
       = Some iv' /\
     content (doc (state iv')) = txt "x = 1+1" /\
     selection (state iv') = mkSelection 7 7) /\
  throws (dispatchTransaction Cases.typedThenMark) StepDiscarded Sample.atEnd /\
  (outer (after (dispatchTransaction Cases.typedThenMark) Sample.atEnd)
     = outer Sample.atEnd /\
   trace (after (dispatchTransaction Cases.typedThenMark) Sample.atEnd)
     = trace Sample.atEnd) /\
  content (Sample.hosted (outer Sample.atEnd)) = txt "x = 1" /\
  (exists e, throws (dispatchTransaction Cases.typedThenMark) e Sample.atEnd).
Proof.
  destruct (@failed_forwarding_keeps_inner_edit Sample.host Cases.typedThenMark
              (mkView 0 (mkState Sample.node (mkSelection 5 5))) Sample.atEnd
              eq_refl eq_refl) as ((iv' & V & D & S) & B & C).
  split; [|split; [reflexivity|split; [|split; [reflexivity|]]]].
  - exists iv'. split; [exact V|]. split; [now rewrite D|exact S].
  - apply (B StepDiscarded). reflexivity.
  - apply (C (OtherStep (Sample.mkMark 0 0)));
      [reflexivity|right; now left|reflexivity].
Defined.

Lemma no_outer_edit_without_step_witness :
  otr_steps (newOuterTr (outer Sample.editing)) = [] /\
  docChanged (newOuterTr (outer Sample.editing)) = false /\
  returns (dispatchTransaction Sample.moveCursor) Sample.editing /\
  outer (after (dispatchTransaction Sample.moveCursor) Sample.editing)
    = outer Sample.editing /\
  trace (after (dispatchTransaction Sample.moveCursor) Sample.editing)
    = trace Sample.editing.
Proof.
  split; [reflexivity|].
  apply (@no_outer_edit_without_step Sample.host Sample.moveCursor
           (mkView 0 (EditorState_create Sample.node)) Sample.editing
           (newOuterTr (outer Sample.editing)));
    reflexivity.
Defined.

(** C9, as stated, fails: a step that puts back the text it replaces leaves
    the content of the inner and of the outer document as it was, and the
    outer transaction that holds it is dispatched all the same. *)
Lemma unchanged_content_is_dispatched :
  replace 0 1 (txt "x") (newTr (EditorState_create Sample.node))
    = inr Cases.sameText /\
  isSet (getMeta "fromOutside" Cases.sameText) = false /\
  forwardTransactions (StepMap.offset (getPos (outer Sample.editing) + 1))
    [Cases.sameText] (newOuterTr (outer Sample.editing))
    = inr (mkOuterTr (outer Sample.editing) [ReplaceStep 8 9 (txt "x")]) /\
  outer (after (dispatchTransaction Cases.sameText) Sample.editing)
    = outer Sample.editing /\
  trace (after (dispatchTransaction Cases.sameText) Sample.editing)
    = trace Sample.editing
        ++ [EvOuter (mkOuterTr (outer Sample.editing)
                       [ReplaceStep 8 9 (txt "x")])] /\
  trace (after (dispatchTransaction Cases.sameText) Sample.editing)
    <> trace Sample.editing.
Proof.
  repeat split; try reflexivity.
  intros H. apply (f_equal (@List.length _)) in H. vm_compute in H.
  discriminate H.
Qed.

Lemma patch_emission_witness :
  (trace (after (onUpdate (mkNode (txt "") (txt "aaa")) false) Sample.aaa)
   = trace Sample.aaa ++ [EvRender (txt "aaa")]) /\
  (exists patch,
     tr_steps patch = [ReplaceStep 3 3 (txt "a")] /\
     trace (after (onUpdate Sample.aaaa false) Sample.aaa)
     = trace Sample.aaa ++ [EvInner patch; EvRender (txt "aaaa")]).
Proof.
  split.
  - destruct (@patch_emission Sample.host (mkNode (txt "") (txt "aaa"))
                (mkView 0 (mkState (mkNode (txt "") (txt "aaa")) (mkSelection 0 0)))
                Sample.aaa eq_refl) as (_ & N & _).
    exact (proj1 (N eq_refl)).
  - destruct (@patch_emission Sample.host Sample.aaaa
                (mkView 0 (mkState (mkNode (txt "") (txt "aaa")) (mkSelection 0 0)))
                Sample.aaa eq_refl) as (_ & _ & D).
    destruct (D 3 eq_refl) as (endA & endB & patch & DE & S & T).
    injection DE as <- <-.
    exists patch. split; [exact S|exact T].
Defined.

Lemma offset_mapping_witness :
  (exists tr,
     insertText (txt "+1") (newTr (mkState Sample.node (mkSelection 5 5)))
       = inr tr /\
     content (tr_doc tr) = txt "x = 1+1" /\
     trace (after (dispatchTransaction tr) Sample.atEnd)
     = trace Sample.atEnd
         ++ [EvOuter (mkOuterTr
                        (Sample.mkOuter 7 (mkNode (txt "x = 1") (txt "x = 1+1")))
                        [ReplaceStep 13 13 (txt "+1")])]) /\
  Step_map (StepMap.offset 8) (ReplaceStep 5 5 (txt "+1") : Step Other)
    = Some (ReplaceStep (8 + 5) (8 + 5) (txt "+1")).
Proof.
  destruct (@offset_mapping Sample.host) as (_ & Shift & Typing).
  split.
  - apply (Typing (mkView 0 (mkState Sample.node (mkSelection 5 5)))
             Sample.atEnd
             (Sample.mkOuter 7 (mkNode (txt "x = 1") (txt "x = 1+1"))));
      try reflexivity.
    vm_compute. discriminate.
  - apply Shift; lia.
Defined.

Lemma lifecycle_idempotence_amended_witness :
  onBlur Sample.world0 = Sample.world0 /\
  onFocus Sample.node (initial (Sample.mkOuter 7 Sample.node) false)
    = (inr tt, initial (Sample.mkOuter 7 Sample.node) false) /\
  isEditing (after (onFocus Sample.node) Sample.world0) = true /\
  created (after (onFocus Sample.node) Sample.world0) = 1%nat.
Proof.
  destruct (@lifecycle_idempotence_amended Sample.host) as (_ & Idle & Locked & Open).
  split; [|split].
  - apply Idle; try reflexivity.
    + intros _. right. now left.
    + intros [H|[]]. discriminate H.
  - apply Locked. reflexivity.
  - destruct (Open Sample.node Sample.world0 eq_refl) as (_ & E & _ & C & _).
    split; [exact E|exact C].
Defined.

Lemma onDestroy_keeps_session_witness :
  editable Sample.world0 = true /\
  isEditing (onDestroy Sample.editing) = true /\
  innerView (onDestroy Sample.editing)
    = Some (mkView 0 (EditorState_create Sample.node)) /\
  In 0%nat (mounted (onDestroy Sample.editing)).
Proof.
  split; [reflexivity|].
  destruct (@onDestroy_keeps_session Sample.host Sample.node Sample.world0 eq_refl)
    as (_ & _ & _ & E & V & M).
  split; [exact E|]. split; [exact V|exact M].
Defined.

(** C4, as stated, fails: a second focus request constructs a second inner
    view next to the first, which is still mounted; the world after two
    requests is not the world after one. *)
Lemma focus_twice_constructs_again :
  ~ (after (onFocus Sample.node) (after (onFocus Sample.node) Sample.world0)
     = after (onFocus Sample.node) Sample.world0) /\
  created (after (onFocus Sample.node) Sample.world0) = 1%nat /\
  created (after (onFocus Sample.node) (after (onFocus Sample.node) Sample.world0))
    = 2%nat /\
  mounted (after (onFocus Sample.node) (after (onFocus Sample.node) Sample.world0))
    = [0%nat; 1%nat].
Proof.
  split; [|split; [|split]]; try reflexivity.
  intros H. apply (f_equal created) in H. vm_compute in H. discriminate H.
Qed.

(** ** The inner edit and the hosted node *)

(** X13. An inner edit arrives in the hosted node. On the sample host,
    whose outer document holds the content of the node one position after
    [getPos()], take a session whose inner document is the hosted node. A
    replacement made in the inner view is forwarded so that the hosted node
    is again the inner document; the update that the host then sends for
    that node only renders. *)
Theorem inner_edit_reaches_hosted_node :
  forall (w : World) (iv : InnerView) (from to : Z) (sl : text)
         (tr : Transaction),
    innerView w = Some iv ->
    Sample.hosted (outer w) = doc (state iv) ->
    0 <= Sample.nodePos (outer w) ->
    replace from to sl (newTr (state iv)) = inr tr ->
    let w' := after (viewDispatch tr) w in
    returns (viewDispatch tr) w /\
    (exists iv',
       innerView w' = Some iv' /\
       doc (state iv') = tr_doc tr /\
       Sample.hosted (outer w') = doc (state iv')) /\
    Sample.nodePos (outer w') = Sample.nodePos (outer w) /\
    onUpdate (Sample.hosted (outer w')) false w' =
      (inr tt, emit (EvRender (newVal (Sample.hosted (outer w'))))
                 (set_datasetValue
                    (Some (newVal (Sample.hosted (outer w')))) w')).
Proof.
  intros w iv from to sl tr E H P R w'.
  assert (X : returns (viewDispatch tr) w /\
              innerView w' = Some (applied tr iv) /\
              Sample.hosted (outer w') = tr_doc tr /\
              Sample.nodePos (outer w') = Sample.nodePos (outer w)).
  { unfold w', returns, after, viewDispatch, bind, modify.
    unfold replace in R.
    destruct ((from =? to) && (size sl =? 0)).
    - injection R as <-.
      erewrite dispatch_local; [|exact E|reflexivity|reflexivity].
      cbn. split; [now exists tt|]. now repeat split.
    - destruct (inRange from (tr_doc (newTr (state iv)))
                && inRange to (tr_doc (newTr (state iv)))); [|discriminate].
      unfold stepReplace in R. cbn [newTr tr_doc] in R.
      destruct (replaceContent from to sl (doc (state iv))) as [d'|] eqn:RC;
        [|discriminate].
      injection R as <-.
      assert (B : 0 <= from <= to).
      { unfold replaceContent in RC.
        destruct ((0 <=? from) && (from <=? to)
                  && (to <=? size (content (doc (state iv))))) eqn:C;
          [|discriminate].
        rewrite !andb_true_iff, !Z.leb_le in C. lia. }
      erewrite dispatch_local; [|exact E|reflexivity|reflexivity].
      cbv zeta. cbn [tr_steps app forwardSteps outer emit].
      change (@ReplaceStep Sample.MarkStep from to sl)
        with (@ReplaceStep (@Other Sample.host) from to sl).
      rewrite (@Step_map_offset_replace Sample.host (getPos (outer w) + 1)
                 from to sl) by (cbn; lia).
      change (getPos (outer w)) with (Sample.nodePos (outer w)).
      unfold outerStep. cbn [newOuterTr otr_state otr_steps applyOuter Sample.host].
      unfold Sample.apply.
      replace (Sample.nodePos (outer w) + 1 + from - (Sample.nodePos (outer w) + 1))
        with from by lia.
      replace (Sample.nodePos (outer w) + 1 + to - (Sample.nodePos (outer w) + 1))
        with to by lia.
      rewrite H, RC. cbn.
      split; [now exists tt|]. now repeat split. }
  destruct X as (X1 & X2 & X3 & X4).
  split; [exact X1|]. split; [|split; [exact X4|]].
  - exists (applied tr iv). now repeat split.
  - apply (onUpdate_same _ (applied tr iv)); [exact X2|].
    now rewrite X3.
Qed.

Lemma onUpdate_patches_in_place_witness :
  exists iv',
    innerView (after (onUpdate Sample.aaaa false) Sample.aaa) = Some iv' /\
    view_id iv' = 0%nat /\
    attrs_value (doc (state iv')) = txt "" /\
    created (after (onUpdate Sample.aaaa false) Sample.aaa) = created Sample.aaa.
Proof.
  destruct (@onUpdate_patches_in_place Sample.host Sample.aaaa false
              (mkView 0 (mkState (mkNode (txt "") (txt "aaa")) (mkSelection 0 0)))
              Sample.aaa eq_refl) as (iv' & V & I & A & C & _).
  exists iv'. split; [exact V|]. split; [exact I|]. split; [exact A|exact C].
Defined.

Lemma update_after_inner_edit_is_inert_witness :
  tr_steps Cases.typed = [ReplaceStep 5 5 (txt "+1")] /\
  content Cases.longer = content (tr_doc Cases.typed) /\
  content Cases.longer <> content Sample.node /\
  onUpdate Cases.longer false (after (viewDispatch Cases.typed) Sample.atEnd) =
    (inr tt,
     emit (EvRender (newVal Cases.longer))
       (set_datasetValue (Some (newVal Cases.longer))
          (after (viewDispatch Cases.typed) Sample.atEnd))).
Proof.
  split; [reflexivity|]. split; [reflexivity|]. split; [discriminate|].
  exact (@update_after_inner_edit_is_inert Sample.host Cases.typed Cases.longer
           (mkView 0 (mkState Sample.node (mkSelection 5 5))) Sample.atEnd
           eq_refl eq_refl eq_refl).
Defined.

Lemma insertion_patch_is_minimal_witness :
  exists (start : Z) (inserted : text) (patch : Transaction),
    tr_steps patch = [ReplaceStep start start inserted] /\
    size inserted = 1 /\
    trace (after (onUpdate Sample.aaaa false) Sample.aaa)
      = trace Sample.aaa ++ [EvInner patch; EvRender (txt "aaaa")].
Proof.
  destruct (@insertion_patch_is_minimal Sample.host Sample.aaaa
              (mkView 0 (mkState (mkNode (txt "") (txt "aaa")) (mkSelection 0 0)))
              Sample.aaa (txt "a") (txt "a") (txt "aa")
              eq_refl eq_refl eq_refl)
    as (start & ins & patch & S & L & _ & T).
  - discriminate.
  - exists start, ins, patch. split; [exact S|]. split; [exact L|exact T].
Defined.

Lemma deletion_patch_is_minimal_witness :
  exists (start : Z) (patch : Transaction),
    tr_steps patch = [ReplaceStep start (start + 1) []] /\
    trace (after (onUpdate (mkNode (txt "") (txt "aa")) false) Sample.aaa)
      = trace Sample.aaa ++ [EvInner patch; EvRender (txt "aa")].
Proof.
  destruct (@deletion_patch_is_minimal Sample.host (mkNode (txt "") (txt "aa"))
              (mkView 0 (mkState (mkNode (txt "") (txt "aaa")) (mkSelection 0 0)))
              Sample.aaa (txt "a") (txt "a") (txt "a")
              eq_refl eq_refl eq_refl)
    as (start & patch & S & _ & T).
  - discriminate.
  - exists start, patch. split; [exact S|exact T].
Defined.

Lemma patch_keeps_cursor_witness :
  (exists iv',
     innerView
       (after (onUpdate (mkNode (txt "") (txt "x = 1+1")) false)
          (set_innerView
             (Some (mkView 0 (mkState Sample.node (mkSelection 2 2))))
             Sample.editing)) = Some iv' /\
     selection (state iv') = mkSelection 2 2) /\
  (exists iv',
     innerView
       (after (onUpdate (mkNode (txt "") (txt "xx = 1")) false) Sample.atEnd)
     = Some iv' /\
     selection (state iv') = mkSelection 6 6).
Proof.
  split.
  - destruct (@patch_keeps_cursor Sample.host (mkNode (txt "") (txt "x = 1+1"))
                (mkView 0 (mkState Sample.node (mkSelection 2 2)))
                (set_innerView
                   (Some (mkView 0 (mkState Sample.node (mkSelection 2 2))))
                   Sample.editing)
                5 6 4 eq_refl eq_refl eq_refl)
      as (iv' & V & Before & _).
    exists iv'. split; [exact V|]. apply Before; reflexivity.
  - destruct (@patch_keeps_cursor Sample.host (mkNode (txt "") (txt "xx = 1"))
                (mkView 0 (mkState Sample.node (mkSelection 5 5)))
                Sample.atEnd 1 1 0 eq_refl eq_refl eq_refl)
      as (iv' & V & _ & After).
    exists iv'. split; [exact V|]. apply After; reflexivity.
Defined.

Lemma refused_step_is_fatal_witness :
  replace 6 7 [] (newTr (mkState Cases.longer (mkSelection 7 7)))
    = inr Cases.eraseLast /\
  (exists e,
     throws (dispatchTransaction Cases.eraseLast) e Cases.ahead /\
     e <> StepDiscarded) /\
  outer (after (dispatchTransaction Cases.eraseLast) Cases.ahead)
    = outer Cases.ahead /\
  (exists iv',
     innerView (after (dispatchTransaction Cases.eraseLast) Cases.ahead)
       = Some iv' /\
     content (doc (state iv')) = txt "x = 1+").
Proof.
  split; [reflexivity|].
  destruct (@refused_step_is_fatal Sample.host Cases.eraseLast
              (mkView 0 (mkState Cases.longer (mkSelection 7 7))) Cases.ahead
              [] [] (ReplaceStep 6 7 []) (ReplaceStep 14 15 [])
              (newOuterTr (outer Cases.ahead))
              eq_refl eq_refl eq_refl eq_refl eq_refl eq_refl eq_refl)
    as (T & O & _ & V).
  split; [exact T|]. split; [exact O|].
  eexists. split; [exact V|reflexivity].
Defined.

Lemma editor_shown_while_focused_witness :
  ~ In hideCodeStyle (editorClasses (after (onFocus Sample.node) Sample.world0)) /\
  In hideCodeStyle (editorClasses (onBlur Sample.editing)).
Proof.
  destruct (@editor_shown_while_focused Sample.host eq_refl) as (F & B).
  split.
  - exact (proj1 (F Sample.node Sample.world0 eq_refl)).
  - exact (proj1 (B Sample.editing)).
Defined.

Lemma stopEvent_follows_session_witness :
  stopEvent (Some (InView 0)) Sample.editing = true /\
  stopEvent (Some (InView 0)) (after (onFocus Sample.node) Sample.editing)
    = false /\
  stopEvent (Some (InView 1)) (after (onFocus Sample.node) Sample.editing)
    = true.
Proof.
  destruct (@stopEvent_follows_session Sample.host) as (_ & F).
  split; [|split].
  - apply (F Sample.node Sample.world0 (Some (InView 0)) eq_refl). reflexivity.
  - destruct (stopEvent (Some (InView 0))
                (after (onFocus Sample.node) Sample.editing)) eqn:S;
      [|reflexivity].
    apply (F Sample.node Sample.editing (Some (InView 0)) eq_refl) in S.
    discriminate S.
  - apply (F Sample.node Sample.editing (Some (InView 1)) eq_refl). reflexivity.
Defined.


Lemma disciplined_host_leaks_no_view_witness :
  disciplined [CallFocus Sample.node; CallBlur; CallFocus Sample.node]
    (initial (Sample.mkOuter 7 Sample.node) true) /\
  single
    (run [CallFocus Sample.node; CallBlur; CallFocus Sample.node]
       (initial (Sample.mkOuter 7 Sample.node) true)) /\
  mounted
    (onBlur
       (run [CallFocus Sample.node; CallBlur; CallFocus Sample.node]
          (initial (Sample.mkOuter 7 Sample.node) true))) = [].
Proof.
  assert (D : disciplined [CallFocus Sample.node; CallBlur; CallFocus Sample.node]
                (initial (Sample.mkOuter 7 Sample.node) true)).
  { cbn [disciplined]. repeat split. }
  split; [exact D|].
  destruct (@disciplined_host_leaks_no_view Sample.host _ _ _ D) as (S & B).
  split; [exact S|exact B].
Defined.

Lemma inner_edit_reaches_hosted_node_witness :
  exists iv',
    innerView
      (after (viewDispatch
                (mkTransaction Sample.node (mkNode (txt "x = 1") (txt "x = 1+1"))
                   [ReplaceStep 5 5 (txt "+1")] (mkSelection 0 0) []))
         Sample.editing) = Some iv' /\
    content (doc (state iv')) = txt "x = 1+1" /\
    Sample.hosted
      (outer
         (after (viewDispatch
                   (mkTransaction Sample.node
                      (mkNode (txt "x = 1") (txt "x = 1+1"))
                      [ReplaceStep 5 5 (txt "+1")] (mkSelection 0 0) []))
            Sample.editing))
    = doc (state iv').
Proof.
  destruct (inner_edit_reaches_hosted_node Sample.editing
              (mkView 0 (EditorState_create Sample.node)) 5 5 (txt "+1")
              (mkTransaction Sample.node (mkNode (txt "x = 1") (txt "x = 1+1"))
                 [ReplaceStep 5 5 (txt "+1")] (mkSelection 0 0) [])
              eq_refl eq_refl)
    as (_ & (iv' & V & D & H) & _).
  - vm_compute. discriminate.
  - reflexivity.
  - exists iv'. split; [exact V|]. split; [now rewrite D|exact H].
Defined.

Lemma callbacks_dispatch_nothing_outward_witness :
  outer (perform (CallUpdate Sample.aaaa false) Sample.aaa) = outer Sample.aaa /\
  outer (perform (CallFocus Sample.node) Sample.world0) = outer Sample.world0.
Proof.
  split.
  - exact (proj1 (@callbacks_dispatch_nothing_outward Sample.host
                    (CallUpdate Sample.aaaa false) Sample.aaa
                    (newOuterTr (outer Sample.aaa)) I)).
  - exact (proj1 (@callbacks_dispatch_nothing_outward Sample.host
                    (CallFocus Sample.node) Sample.world0
                    (newOuterTr (outer Sample.world0)) I)).
Defined.
